(** * ColumnAliasManager: aliases <-> canonical DataFrame column names

    A shallow embedding of [src/column_alias_manager.py].

    - A Python [str] is a [string]: its code points in UTF-8, one after
      the other, a surrogate code point written as three bytes like any
      other code point of its size.
    - A Python [dict] is an association list in insertion order with the
      update, lookup and removal behaviour of the builtin (module [Dict]).
    - A method that mutates [self] or raises is a function from the
      receiver to an outcome and the receiver afterwards (type [M]).
    - [str.casefold], [json.dumps] and [json.loads] belong to the Python
      runtime; the model takes them through the class [Runtime] and the
      properties state what they use of them. *)

From Stdlib Require Import String Ascii List Bool NArith ZArith Lia.
Import ListNotations.
Open Scope string_scope.

(** ** Python dictionaries with string keys *)

Module Dict.
Section Ops.
Context {V : Type}.

Definition t : Type := list (string * V).

(** [d.get(k)] *)
Fixpoint get (k : string) (d : t) : option V :=
  match d with
  | [] => None
  | (k', v) :: d' => if k' =? k then Some v else get k d'
  end.

(** [k in d] *)
Definition mem (k : string) (d : t) : bool :=
  match get k d with Some _ => true | None => false end.

(** [d[k] = v]: an existing key keeps its position, a new one goes last. *)
Fixpoint set (k : string) (v : V) (d : t) : t :=
  match d with
  | [] => [(k, v)]
  | (k', v') :: d' =>
      if k' =? k then (k', v) :: d' else (k', v') :: set k v d'
  end.

(** [d.pop(k, None)] *)
Fixpoint pop (k : string) (d : t) : t :=
  match d with
  | [] => []
  | (k', v') :: d' => if k' =? k then d' else (k', v') :: pop k d'
  end.

Definition keys (d : t) : list string := map fst d.

(** [{k: v for ...}]: the pairs are stored one after the other. *)
Definition of_items (items : list (string * V)) : t :=
  fold_left (fun d kv => set (fst kv) (snd kv) d) items [].
End Ops.
Arguments t : clear implicits.
End Dict.

(** ** Outcomes *)

(** The exceptions the module raises, named as the specification names
    them; the Python class and message are given with each. *)
Inductive error : Type :=
| FrozenError
    (* RuntimeError("ColumnAliasManager is frozen/immutable.") *)
| ConflictError (alias existing : string)
    (* ValueError(f"Alias '{alias}' already mapped to '{existing}'.") *)
| CollisionError (collisions : list string)
    (* ValueError(f"Alias(es) {collisions} would overwrite existing
       canonical columns.") *)
| MissingRecordError
    (* ValueError("No 'alias_map' in DataFrame.attrs. ...") *)
| AttributeError
    (* a method looked up on an object that has none of that name *)
| JSONDecodeError.
    (* json.loads on a text that is no JSON *)

Inductive result (A : Type) : Type :=
| Ok (a : A)
| Raise (e : error).
Arguments Ok {A} a.
Arguments Raise {A} e.

(** ** Labels, metadata and tables *)

(** A value of one level of a [MultiIndex]. *)
Inductive level_value : Type :=
| LStr (s : string)
| LInt (z : Z).

(** A column label is any hashable: a [str], the one kind the manager
    looks into, an [int], or a [tuple] of level values. *)
Inductive label : Type :=
| Str (s : string)
| Int (z : Z)
| Tuple (items : list level_value).

(** What [DataFrame.attrs] may hold under a key. *)
Inductive attr : Type :=
| AttrNone
| RenameRecord (alias_map : Dict.t string)
| AttrOther (z : Z).

(** The part of a [pandas.DataFrame] the module touches: its column
    labels and its [attrs] bag; [cells] stands for the rest. *)
Record DataFrame : Type := {
  columns : list label;
  cells : list (list Z);
  attrs : Dict.t attr
}.

(** [df.rename(columns=mapper)] on a flat index: a label found in
    [mapper] is replaced, any other is kept. *)
Definition rename_label (mapper : Dict.t string) (l : label) : label :=
  match l with
  | Str s => match Dict.get s mapper with Some s' => Str s' | None => l end
  | _ => l
  end.

(** Labels that are all tuples, of one length, are the labels of a
    [MultiIndex]: pandas builds one from them, unless it is told to keep
    the tuples as plain labels, a case left aside here. *)
Definition multi_index (cols : list label) : bool :=
  match cols with
  | Tuple first :: rest =>
      forallb (fun l =>
                 match l with
                 | Tuple items =>
                     (List.length items =? List.length first)%nat
                 | _ => false
                 end) rest
  | _ => false
  end.

(** [df.rename(columns=mapper)] on a [MultiIndex]: in every label the
    value of every level is looked up in [mapper]. *)
Definition rename_level (mapper : Dict.t string) (x : level_value)
  : level_value :=
  match x with
  | LStr s => match Dict.get s mapper with Some s' => LStr s' | None => x end
  | LInt _ => x
  end.

Definition rename_levels (mapper : Dict.t string) (l : label) : label :=
  match l with
  | Tuple items => Tuple (map (rename_level mapper) items)
  | _ => l
  end.

Definition rename (mapper : Dict.t string) (df : DataFrame) : DataFrame :=
  {| columns :=
       if multi_index (columns df)
       then map (rename_levels mapper) (columns df)
       else map (rename_label mapper) (columns df);
     cells := cells df;
     attrs := attrs df |}.

Definition set_attr (k : string) (a : attr) (df : DataFrame) : DataFrame :=
  {| columns := columns df;
     cells := cells df;
     attrs := Dict.set k a (attrs df) |}.

(** ** Reference instances of the runtime functions

    Used to run the model on concrete inputs. *)

(** ASCII lowering, which is what [str.casefold] does to an ASCII string. *)
Definition lower_byte (c : ascii) : ascii :=
  let n := nat_of_ascii c in
  if (65 <=? n)%nat && (n <=? 90)%nat then ascii_of_nat (n + 32) else c.

Fixpoint ascii_lower (s : string) : string :=
  match s with
  | EmptyString => EmptyString
  | String c s' => String (lower_byte c) (ascii_lower s')
  end.

Fixpoint is_ascii (s : string) : bool :=
  match s with
  | EmptyString => true
  | String c s' => (nat_of_ascii c <? 128)%nat && is_ascii s'
  end.

(** Lead byte of a two-byte UTF-8 sequence (U+0080 to U+07FF). *)
Definition is_lead2 (c : ascii) : bool :=
  let n := nat_of_ascii c in (194 <=? n)%nat && (n <=? 223)%nat.

(** Full case folding of the code point encoded by the bytes [c d], for
    the Latin-1 Supplement: U+00B5 folds to U+03BC, U+00C0..U+00DE but
    U+00D7 fold to the letter 32 above, and U+00DF folds to the two
    letters [ss]. *)
Definition fold_pair (c d : ascii) : string :=
  let n := nat_of_ascii d in
  if (c =? "195")%char then
    if (n =? 159)%nat then "ss"
    else if (128 <=? n)%nat && (n <=? 158)%nat && negb (n =? 151)%nat
         then String c (String (ascii_of_nat (n + 32)) EmptyString)
         else String c (String d EmptyString)
  else if (c =? "194")%char && (n =? 181)%nat
       then String "206" (String "188" EmptyString)
       else String c (String d EmptyString).

(** [str.casefold] on the strings whose code points are below U+0100;
    code points above are left as they are. *)
Fixpoint casefold_latin1 (s : string) : string :=
  match s with
  | EmptyString => EmptyString
  | String c rest =>
      if is_lead2 c then
        match rest with
        | String d rest' => fold_pair c d ++ casefold_latin1 rest'
        | EmptyString => String c EmptyString
        end
      else String (lower_byte c) (casefold_latin1 rest)
  end.

(** What [json.loads] returns. *)
#[local] Unset Elimination Schemes.
Inductive json : Type :=
| JNull
| JBool (b : bool)
| JInt (z : Z)
| JFloat (zero : bool)
| JString (s : string)
| JArray (items : list json)
| JObject (members : Dict.t json).
#[local] Set Elimination Schemes.

(** [json.dumps] of a [dict] of [str], [ensure_ascii] as by default:
    [{], the members [key: value] separated by a comma and a space, [}];
    inside a string the quote, the backslash and five control characters
    have their short escape, the other printable ASCII characters are
    written as they are, and every other code point is written
    [\uXXXX], a code point above U+FFFF as two surrogates. *)
Definition dquote : ascii := "034".
Definition backslash : ascii := "092".

Open Scope N_scope.

Fixpoint decode_utf8 (s : string) : list N :=
  match s with
  | EmptyString => []
  | String b0 rest =>
      let n0 := N_of_ascii b0 in
      if (n0 <? 192)%N then n0 :: decode_utf8 rest
      else
        match rest with
        | EmptyString => [n0]
        | String b1 rest1 =>
            let n1 := (N_of_ascii b1 - 128)%N in
            if (n0 <? 224)%N
            then ((n0 - 192) * 64 + n1)%N :: decode_utf8 rest1
            else
              match rest1 with
              | EmptyString => [n0]
              | String b2 rest2 =>
                  let n2 := (N_of_ascii b2 - 128)%N in
                  if (n0 <? 240)%N
                  then ((n0 - 224) * 4096 + n1 * 64 + n2)%N
                       :: decode_utf8 rest2
                  else
                    match rest2 with
                    | EmptyString => [n0]
                    | String b3 rest3 =>
                        let n3 := (N_of_ascii b3 - 128)%N in
                        ((n0 - 240) * 262144 + n1 * 4096 + n2 * 64 + n3)%N
                        :: decode_utf8 rest3
                    end
              end
        end
  end.

Definition encode_code_point (cp : N) : string :=
  let byte (n : N) := ascii_of_N n in
  if (cp <? 128)%N then String (byte cp) EmptyString
  else if (cp <? 2048)%N then
    String (byte (192 + cp / 64)) (String (byte (128 + cp mod 64)) EmptyString)
  else if (cp <? 65536)%N then
    String (byte (224 + cp / 4096))
      (String (byte (128 + cp / 64 mod 64))
         (String (byte (128 + cp mod 64)) EmptyString))
  else
    String (byte (240 + cp / 262144))
      (String (byte (128 + cp / 4096 mod 64))
         (String (byte (128 + cp / 64 mod 64))
            (String (byte (128 + cp mod 64)) EmptyString))).

Definition hex_digit (d : N) : ascii :=
  ascii_of_N (if (d <? 10)%N then 48 + d else 87 + d)%N.

Definition u_escape (n : N) : string :=
  String backslash
    (String "u"
       (String (hex_digit (n / 4096 mod 16))
          (String (hex_digit (n / 256 mod 16))
             (String (hex_digit (n / 16 mod 16))
                (String (hex_digit (n mod 16)) EmptyString))))).

Definition escape_code_point (cp : N) : string :=
  if (cp =? 34)%N then String backslash (String dquote EmptyString)
  else if (cp =? 92)%N then String backslash (String backslash EmptyString)
  else if (cp =? 10)%N then String backslash "n"
  else if (cp =? 13)%N then String backslash "r"
  else if (cp =? 9)%N then String backslash "t"
  else if (cp =? 8)%N then String backslash "b"
  else if (cp =? 12)%N then String backslash "f"
  else if (32 <=? cp)%N && (cp <=? 126)%N
       then String (ascii_of_N cp) EmptyString
  else if (cp <? 65536)%N then u_escape cp
  else u_escape (55296 + (cp - 65536) / 1024)
       ++ u_escape (56320 + (cp - 65536) mod 1024).

Definition json_escape (s : string) : string :=
  fold_right (fun cp out => escape_code_point cp ++ out) EmptyString
    (decode_utf8 s).

Definition json_string (s : string) : string :=
  String dquote (json_escape s ++ String dquote EmptyString).

Definition json_member (kv : string * string) : string :=
  json_string (fst kv) ++ ": " ++ json_string (snd kv).

Fixpoint json_members (d : Dict.t string) : string :=
  match d with
  | [] => EmptyString
  | [kv] => json_member kv
  | kv :: d' => json_member kv ++ ", " ++ json_members d'
  end.

Definition json_encode (d : Dict.t string) : string :=
  "{" ++ json_members d ++ "}".

(** [json.loads] of a [str], as CPython's scanner reads it: spaces,
    tabs and line ends around the value and between the tokens; strings
    with their escapes and no raw control character; numbers, with
    [NaN], [Infinity] and [-Infinity]; arrays; objects, in which a
    repeated key keeps its first place and takes its last value.  An
    escape [\uXXXX] for a high surrogate followed by one for a low
    surrogate is read as the one code point the two stand for.  Of a
    float only what [bool] asks of it is kept: whether it is zero. *)
Definition hex_value (c : ascii) : option N :=
  let n := N_of_ascii c in
  if (48 <=? n)%N && (n <=? 57)%N then Some (n - 48)%N
  else if (97 <=? n)%N && (n <=? 102)%N then Some (n - 87)%N
  else if (65 <=? n)%N && (n <=? 70)%N then Some (n - 55)%N
  else None.

Definition read_hex4 (s : string) : option (N * string) :=
  match s with
  | String a (String b (String c (String d rest))) =>
      match hex_value a, hex_value b, hex_value c, hex_value d with
      | Some x3, Some x2, Some x1, Some x0 =>
          Some ((x3 * 4096 + x2 * 256 + x1 * 16 + x0)%N, rest)
      | _, _, _, _ => None
      end
  | _ => None
  end.

Definition read_u_escape (s : string) : option (N * string) :=
  match s with
  | String c (String u rest) =>
      if (c =? backslash)%char && (u =? "u")%char then read_hex4 rest
      else None
  | _ => None
  end.

Definition short_escape (c : ascii) : option N :=
  if (c =? dquote)%char then Some 34%N
  else if (c =? backslash)%char then Some 92%N
  else if (c =? "/")%char then Some 47%N
  else if (c =? "b")%char then Some 8%N
  else if (c =? "f")%char then Some 12%N
  else if (c =? "n")%char then Some 10%N
  else if (c =? "r")%char then Some 13%N
  else if (c =? "t")%char then Some 9%N
  else None.

Definition is_high (n : N) : bool := (55296 <=? n)%N && (n <=? 56319)%N.
Definition is_low (n : N) : bool := (56320 <=? n)%N && (n <=? 57343)%N.

Definition prepend (head : string) (r : option (string * string))
  : option (string * string) :=
  match r with
  | Some (body, rest) => Some (head ++ body, rest)
  | None => None
  end.

(** Reads a string body up to its closing quote: the text read and the
    input left. *)
Fixpoint read_body (fuel : nat) (s : string) : option (string * string) :=
  match fuel with
  | O => None
  | S fuel' =>
      match s with
      | EmptyString => None
      | String c s' =>
          if (c =? dquote)%char then Some (EmptyString, s')
          else if (c =? backslash)%char then
            match s' with
            | EmptyString => None
            | String e s'' =>
                if (e =? "u")%char then
                  match read_hex4 s'' with
                  | None => None
                  | Some (hi, s3) =>
                      match (if is_high hi then read_u_escape s3
                             else None) with
                      | Some (lo, s4) =>
                          if is_low lo
                          then prepend
                                 (encode_code_point
                                    (65536 + (hi - 55296) * 1024
                                     + (lo - 56320))%N)
                                 (read_body fuel' s4)
                          else prepend (encode_code_point hi)
                                 (read_body fuel' s3)
                      | None =>
                          prepend (encode_code_point hi)
                            (read_body fuel' s3)
                      end
                  end
                else
                  match short_escape e with
                  | Some cp =>
                      prepend (encode_code_point cp) (read_body fuel' s'')
                  | None => None
                  end
            end
          else if (N_of_ascii c <? 32)%N then None
          else prepend (String c EmptyString) (read_body fuel' s')
      end
  end.

Definition read_string (s : string) : option (string * string) :=
  match s with
  | String c s' =>
      if (c =? dquote)%char then read_body (String.length s') s' else None
  | EmptyString => None
  end.

Definition is_ws (c : ascii) : bool :=
  (c =? " ")%char || (c =? "009")%char || (c =? "010")%char
  || (c =? "013")%char.

Fixpoint skip_ws (s : string) : string :=
  match s with
  | String c s' => if is_ws c then skip_ws s' else s
  | EmptyString => s
  end.

Definition is_digit (c : ascii) : bool :=
  (48 <=? N_of_ascii c)%N && (N_of_ascii c <=? 57)%N.

Definition starts_with_digit (s : string) : bool :=
  match s with
  | String c _ => is_digit c
  | EmptyString => false
  end.

(** The digits at the head of [s]: their value read after [acc], their
    number added to [count], and the input left. *)
Fixpoint read_digits (s : string) (acc count : N) : N * N * string :=
  match s with
  | String c s' =>
      if is_digit c
      then read_digits s' (acc * 10 + (N_of_ascii c - 48))%N (count + 1)%N
      else (acc, count, s)
  | EmptyString => (acc, count, s)
  end.

(** Whether [float] of the decimal [mantissa * 10 ** exponent] is zero:
    the decimal is zero, or at most half the least positive double. *)
Definition rounds_to_zero (mantissa : N) (exponent : Z) : bool :=
  (mantissa =? 0)%N
  || ((exponent <? 0)%Z
      && (mantissa * 2 ^ 1075 <=? 10 ^ Z.to_N (- exponent))%N).

(** A number: an optional minus sign; a zero, or digits that start
    with none; then, if a digit follows it, a point and digits; then, if
    a digit follows them, [e] or [E] and an optional sign, and digits.
    It is an [int] without fraction and exponent, a [float] with
    either. *)
Definition read_number (s : string) : option (json * string) :=
  let (negative, s0) :=
    match s with
    | String c s' => if (c =? "-")%char then (true, s') else (false, s)
    | EmptyString => (false, s)
    end in
  match s0 with
  | EmptyString => None
  | String c s1 =>
      if is_digit c then
        let '(int_part, _, s2) :=
          if (c =? "0")%char then (0%N, 1%N, s1)
          else read_digits s0 0%N 0%N in
        let '(mantissa, places, s3) :=
          match s2 with
          | String d s2' =>
              if (d =? ".")%char && starts_with_digit s2'
              then read_digits s2' int_part 0%N
              else (int_part, 0%N, s2)
          | EmptyString => (int_part, 0%N, s2)
          end in
        let '(exponent, s4) :=
          match s3 with
          | String e s3' =>
              if (e =? "e")%char || (e =? "E")%char then
                let (minus, s5) :=
                  match s3' with
                  | String sign r =>
                      if (sign =? "-")%char then (true, r)
                      else if (sign =? "+")%char then (false, r)
                      else (false, s3')
                  | EmptyString => (false, s3')
                  end in
                if starts_with_digit s5 then
                  let '(x, _, r) := read_digits s5 0%N 0%N in
                  (Some (if minus then (- Z.of_N x)%Z else Z.of_N x), r)
                else (None, s3)
              else (None, s3)
          | EmptyString => (None, s3)
          end in
        match exponent, String.eqb s3 s2 with
        | None, true =>
            Some (JInt (if negative then (- Z.of_N int_part)%Z
                        else Z.of_N int_part), s4)
        | _, _ =>
            let e := match exponent with Some x => x | None => 0%Z end in
            Some (JFloat (rounds_to_zero mantissa (e - Z.of_N places)), s4)
        end
      else None
  end.

Fixpoint strip_prefix (prefix s : string) : option string :=
  match prefix, s with
  | EmptyString, _ => Some s
  | String a prefix', String b s' =>
      if (a =? b)%char then strip_prefix prefix' s' else None
  | String _ _, EmptyString => None
  end.

Definition read_constant (s : string) : option (json * string) :=
  match strip_prefix "null" s with
  | Some rest => Some (JNull, rest)
  | None =>
  match strip_prefix "true" s with
  | Some rest => Some (JBool true, rest)
  | None =>
  match strip_prefix "false" s with
  | Some rest => Some (JBool false, rest)
  | None =>
  match strip_prefix "NaN" s with
  | Some rest => Some (JFloat false, rest)
  | None =>
  match strip_prefix "Infinity" s with
  | Some rest => Some (JFloat false, rest)
  | None =>
  match strip_prefix "-Infinity" s with
  | Some rest => Some (JFloat false, rest)
  | None => read_number s
  end end end end end end.

(** The items of an array after its bracket, up to the closing one. *)
Fixpoint read_items (value : string -> option (json * string))
  (fuel : nat) (s : string) (acc : list json)
  : option (list json * string) :=
  match fuel with
  | O => None
  | S fuel' =>
      match value s with
      | None => None
      | Some (v, s1) =>
          match skip_ws s1 with
          | EmptyString => None
          | String c s2 =>
              if (c =? "]")%char then Some (rev (v :: acc), s2)
              else if (c =? ",")%char
              then read_items value fuel' (skip_ws s2) (v :: acc)
              else None
          end
      end
  end.

(** The members of an object after its brace, up to the closing one,
    stored one after the other as in a Python [dict]. *)
Fixpoint read_members (value : string -> option (json * string))
  (fuel : nat) (s : string) (acc : Dict.t json)
  : option (Dict.t json * string) :=
  match fuel with
  | O => None
  | S fuel' =>
      match read_string s with
      | None => None
      | Some (k, s1) =>
          match skip_ws s1 with
          | EmptyString => None
          | String colon s2 =>
              if (colon =? ":")%char then
                match value (skip_ws s2) with
                | None => None
                | Some (v, s3) =>
                    match skip_ws s3 with
                    | EmptyString => None
                    | String c s4 =>
                        if (c =? "}")%char
                        then Some (Dict.set k v acc, s4)
                        else if (c =? ",")%char
                        then read_members value fuel' (skip_ws s4)
                               (Dict.set k v acc)
                        else None
                    end
                end
              else None
          end
      end
  end.

Fixpoint read_value (fuel : nat) (s : string) : option (json * string) :=
  match fuel with
  | O => None
  | S fuel' =>
      match s with
      | EmptyString => None
      | String c s' =>
          if (c =? dquote)%char then
            match read_body (String.length s') s' with
            | Some (v, rest) => Some (JString v, rest)
            | None => None
            end
          else if (c =? "{")%char then
            let s1 := skip_ws s' in
            match s1 with
            | EmptyString => None
            | String c1 rest =>
                if (c1 =? "}")%char then Some (JObject [], rest)
                else
                  match read_members (read_value fuel')
                          (String.length s1) s1 [] with
                  | Some (members, rest') => Some (JObject members, rest')
                  | None => None
                  end
            end
          else if (c =? "[")%char then
            let s1 := skip_ws s' in
            match s1 with
            | EmptyString => None
            | String c1 rest =>
                if (c1 =? "]")%char then Some (JArray [], rest)
                else
                  match read_items (read_value fuel')
                          (String.length s1) s1 [] with
                  | Some (items, rest') => Some (JArray items, rest')
                  | None => None
                  end
            end
          else read_constant s
      end
  end.

Definition json_decode (s : string) : option json :=
  let s0 := skip_ws s in
  match read_value (S (String.length s0)) s0 with
  | Some (v, rest) =>
      match skip_ws rest with
      | EmptyString => Some v
      | String _ _ => None
      end
  | None => None
  end.

Close Scope N_scope.

(** The alias whose two code points are the surrogates U+D83D and
    U+DE00, and the one code point U+1F600 that JSON text makes of
    them. *)
Definition surrogate_pair : string :=
  String "237" (String "160" (String "189"
    (String "237" (String "184" (String "128" EmptyString))))).

Definition astral : string :=
  String "240" (String "159" (String "152" (String "128" EmptyString))).

(** ** The manager *)

Record ColumnAliasManager : Type := {
  _aliases : Dict.t string;
  _frozen : bool
}.

Definition _ATTR_KEY : string := "alias_map".

(** A method: the receiver goes in, what the call returned or raised
    comes out together with the receiver as the call left it. *)
Definition M (A : Type) : Type :=
  ColumnAliasManager -> result A * ColumnAliasManager.

Definition ret {A : Type} (a : A) : M A := fun self => (Ok a, self).

Definition raise {A : Type} (e : error) : M A := fun self => (Raise e, self).

Definition bind {A B : Type} (m : M A) (k : A -> M B) : M B :=
  fun self =>
    match m self with
    | (Ok a, self') => k a self'
    | (Raise e, self') => (Raise e, self')
    end.

Declare Scope method_scope.
Delimit Scope method_scope with method.
Notation "x <- m ;; k" := (bind m (fun x => k))
  (at level 61, m at next level, right associativity) : method_scope.
Notation "m ;; k" := (bind m (fun _ => k))
  (at level 61, right associativity) : method_scope.

(** [for x in xs: body(x)] *)
Fixpoint for_each {A : Type} (body : A -> M unit) (xs : list A) : M unit :=
  match xs with
  | [] => ret tt
  | x :: xs' => (body x ;; for_each body xs')%method
  end.

Definition read_aliases : M (Dict.t string) :=
  fun self => (Ok (_aliases self), self).

Definition write_aliases (d : Dict.t string) : M unit :=
  fun self => (Ok tt, {| _aliases := d; _frozen := _frozen self |}).

(** What the module calls in the Python runtime. *)
Class Runtime : Type := {
  (** [str.casefold] *)
  casefold : string -> string;
  (** [json.dumps] of a [dict] of [str] *)
  json_dumps : Dict.t string -> string;
  (** [json.loads]: the value of a JSON text, nothing for a text it
      refuses *)
  json_loads : string -> option json
}.

(** The reference runtime. *)
Definition latin1 : Runtime := {|
  casefold := casefold_latin1;
  json_dumps := json_encode;
  json_loads := json_decode
|}.

Section Manager.
Set Default Proof Using "Type".

Context {python : Runtime}.

Definition _normalize (name : string) : string := casefold name.

Definition _check_frozen : M unit :=
  fun self => if _frozen self then raise FrozenError self else ret tt self.

(** *** Mutators *)

Definition add_alias (alias canonical : string) (overwrite : bool)
  : M unit :=
  (_check_frozen ;;
   let key := _normalize alias in
   aliases <- read_aliases ;;
   match Dict.get key aliases with
   | Some existing =>
       if negb overwrite && negb (existing =? canonical)
       then raise (ConflictError alias existing)
       else write_aliases (Dict.set key canonical aliases)
   | None => write_aliases (Dict.set key canonical aliases)
   end)%method.

Definition __setitem__ (alias canonical : string) : M unit :=
  add_alias alias canonical false.

Definition add_aliases (mapping : list (string * string))
  (overwrite : bool) : M unit :=
  for_each (fun ac => add_alias (fst ac) (snd ac) overwrite) mapping.

Definition add_alias_groups (groups : list (string * list string))
  (overwrite : bool) : M unit :=
  for_each
    (fun g =>
       for_each (fun alias => add_alias alias (fst g) overwrite) (snd g))
    groups.

Definition remove_alias (alias : string) : M unit :=
  (_check_frozen ;;
   aliases <- read_aliases ;;
   write_aliases (Dict.pop (_normalize alias) aliases))%method.

Definition clear : M unit :=
  (_check_frozen ;; write_aliases [])%method.

Definition freeze : M unit :=
  fun self => (Ok tt, {| _aliases := _aliases self; _frozen := true |}).

(** [ColumnAliasManager(mapping, frozen=frozen)]: no object comes out
    of a constructor that raises. *)
Definition __init__ (mapping : option (list (string * string)))
  (frozen : bool) : result ColumnAliasManager :=
  let self := {| _aliases := []; _frozen := frozen |} in
  match mapping with
  | None | Some [] => Ok self
  | Some m =>
      match add_aliases m false self with
      | (Ok _, self') => Ok self'
      | (Raise e, _) => Raise e
      end
  end.

(** *** Queries *)

Definition canonical (self : ColumnAliasManager) (alias_or_name : string)
  : string :=
  match Dict.get (_normalize alias_or_name) (_aliases self) with
  | Some c => c
  | None => alias_or_name
  end.

Definition __getitem__ (self : ColumnAliasManager) (alias : string)
  : string := canonical self alias.

Definition __contains__ (self : ColumnAliasManager) (alias : string)
  : bool := Dict.mem (_normalize alias) (_aliases self).

(** The [aliases] property: a copy of the alias map. *)
Definition aliases (self : ColumnAliasManager) : Dict.t string :=
  _aliases self.

Definition aliases_for (self : ColumnAliasManager) (canonical : string)
  : list string :=
  map fst (filter (fun ac => snd ac =? canonical) (_aliases self)).

Definition resolve (self : ColumnAliasManager)
  (columns : option (list label)) : option (list label) :=
  match columns with
  | None => None
  | Some cols =>
      Some (map (fun col =>
                   match col with
                   | Str s => Str (canonical self s)
                   | _ => col
                   end) cols)
  end.

(** *** DataFrame helpers *)

(** The comprehension that builds [rename_map]: [_normalize(col)] is
    evaluated on every label in turn, and a label that is no [str] has
    no [casefold] to call. *)
Fixpoint build_rename_map (self : ColumnAliasManager) (cols : list label)
  (rename_map : Dict.t string) : result (Dict.t string) :=
  match cols with
  | [] => Ok rename_map
  | Str col :: cols' =>
      match Dict.get (_normalize col) (_aliases self) with
      | Some c => build_rename_map self cols' (Dict.set col c rename_map)
      | None => build_rename_map self cols' rename_map
      end
  | _ :: _ => Raise AttributeError
  end.

(** [key in map(self._normalize, df.columns)]; reached only once every
    label has been normalized without error. *)
Definition in_normalized_columns (key : string) (cols : list label)
  : bool :=
  existsb (fun col =>
             match col with
             | Str s => _normalize s =? key
             | _ => false
             end) cols.

Definition collisions_of (cols : list label) (rename_map : Dict.t string)
  : list string :=
  map fst
    (filter (fun ac =>
               in_normalized_columns (_normalize (snd ac)) cols
               && negb (fst ac =? snd ac))
            rename_map).

(** The table returned, and [df] as the call leaves it: the same
    table when [inplace], the table untouched otherwise. *)
Definition to_canonical (self : ColumnAliasManager) (df : DataFrame)
  (inplace drop_conflicts remember : bool)
  : result (DataFrame * DataFrame) :=
  match build_rename_map self (columns df) [] with
  | Raise e => Raise e
  | Ok rename_map =>
      let collisions := collisions_of (columns df) rename_map in
      let pruned :=
        match collisions with
        | [] => Ok rename_map
        | _ :: _ =>
            if drop_conflicts
            then Ok (fold_left (fun m a => Dict.pop a m) collisions
                       rename_map)
            else Raise (CollisionError collisions)
        end in
      match pruned with
      | Raise e => Raise e
      | Ok rename_map =>
          let target := rename rename_map df in
          let target :=
            if remember
            then set_attr _ATTR_KEY (RenameRecord rename_map) target
            else target in
          Ok (target, if inplace then target else df)
      end
  end.

Definition restore_aliases (self : ColumnAliasManager) (df : DataFrame)
  (inplace strict : bool) : result (DataFrame * DataFrame) :=
  match Dict.get _ATTR_KEY (attrs df) with
  | None | Some AttrNone =>
      if strict then Raise MissingRecordError else Ok (df, df)
  | Some (RenameRecord alias_map) =>
      let reverse :=
        Dict.of_items (map (fun ac => (snd ac, fst ac)) alias_map) in
      let target := rename reverse df in
      Ok (target, if inplace then target else df)
  | Some (AttrOther _) => Raise AttributeError
  end.

(** *** Persistence *)

Definition to_json (self : ColumnAliasManager) : string :=
  json_dumps (_aliases self).

(** The alias map as [json.loads] gives it back when nothing is lost. *)
Definition json_of_aliases (d : Dict.t string) : json :=
  JObject (map (fun kv => (fst kv, JString (snd kv))) d).

(** [bool(v)] *)
Definition truthy (v : json) : bool :=
  match v with
  | JNull => false
  | JBool b => b
  | JInt z => negb (z =? 0)%Z
  | JFloat zero => negb zero
  | JString s => negb (s =? "")
  | JArray items => match items with [] => false | _ :: _ => true end
  | JObject members => match members with [] => false | _ :: _ => true end
  end.

(** The members of an object when their values are all strings. *)
Fixpoint string_members (members : Dict.t json)
  : option (list (string * string)) :=
  match members with
  | [] => Some []
  | (k, JString v) :: rest =>
      match string_members rest with
      | Some m => Some ((k, v) :: m)
      | None => None
      end
  | _ :: _ => None
  end.

(** [cls(json.loads(s))].  The value loaded goes to the constructor as
    it is: a falsy one is no mapping to add, a truthy one that is no
    object has no [items].  Nothing is given for an object with a value
    that is no string: the manager the code builds from it holds that
    value as a canonical name, which [_aliases] here, of the type
    [Dict[str, str]] the code declares, cannot. *)
Definition from_json (s : string) : option (result ColumnAliasManager) :=
  match json_loads s with
  | None => Some (Raise JSONDecodeError)
  | Some v =>
      if truthy v then
        match v with
        | JObject members =>
            match string_members members with
            | Some mapping => Some (__init__ (Some mapping) false)
            | None => None
            end
        | _ => Some (Raise AttributeError)
        end
      else Some (__init__ None false)
  end.

(** *** Histories of a manager *)

(** A group that names no alias. *)
Definition no_alias (g : string * list string) : bool :=
  match snd g with [] => true | _ :: _ => false end.


(** The calls that may change a manager. *)
Inductive mutation : Type :=
| AddAlias (alias canonical : string) (overwrite : bool)
| AddAliases (mapping : list (string * string)) (overwrite : bool)
| AddAliasGroups (groups : list (string * list string)) (overwrite : bool)
| RemoveAlias (alias : string)
| Clear
| Freeze.

Definition call (op : mutation) : M unit :=
  match op with
  | AddAlias a c ov => add_alias a c ov
  | AddAliases m ov => add_aliases m ov
  | AddAliasGroups g ov => add_alias_groups g ov
  | RemoveAlias a => remove_alias a
  | Clear => clear
  | Freeze => freeze
  end.

(** The (alias, canonical) pairs a call hands to [add_alias]. *)
Definition supplied (op : mutation) : list (string * string) :=
  match op with
  | AddAlias a c _ => [(a, c)]
  | AddAliases m _ => m
  | AddAliasGroups g _ =>
      flat_map (fun g => map (fun a => (a, fst g)) (snd g)) g
  | _ => []
  end.

(** A manager some program can hold: built by the constructor, then
    changed by any calls, whether they returned or raised. *)
Inductive constructible : ColumnAliasManager -> Prop :=
| constructed mapping frozen self :
    __init__ mapping frozen = Ok self -> constructible self
| called op self :
    constructible self -> constructible (snd (call op self)).

(** *** The specification's vocabulary *)

(** The collision of the specification, in its words: the entry
    [alias -> canonical] collides when [alias <> canonical] and the
    normalized [canonical] matches the normalized label of a column
    other than the alias's own. *)
Definition spec_collision (cols : list label) (alias canonical : string)
  : Prop :=
  alias <> canonical
  /\ exists i j other,
       i <> j
       /\ nth_error cols i = Some (Str alias)
       /\ nth_error cols j = Some (Str other)
       /\ _normalize other = _normalize canonical.

(** Every stored pair is a supplied one: the key is the normalized
    form of an alias handed to [add_alias], the value is the canonical
    name handed with it, untouched. *)
Definition stored_as_supplied (history : list (string * string))
  (self : ColumnAliasManager) : Prop :=
  forall k v,
    In (k, v) (_aliases self) ->
    exists a, In (a, v) history /\ k = _normalize a.

(** ** Facts about dictionaries *)

Lemma dict_get_set_same (V : Type) (k : string) (v : V) (d : Dict.t V) :
  Dict.get k (Dict.set k v d) = Some v.
Proof.
  induction d as [|[k' v'] d IH]; simpl.
  - rewrite String.eqb_refl. reflexivity.
  - destruct (k' =? k) eqn:E; simpl; rewrite E; auto.
Qed.

Lemma dict_get_set_other (V : Type) (k k' : string) (v : V)
  (d : Dict.t V) :
  k <> k' -> Dict.get k' (Dict.set k v d) = Dict.get k' d.
Proof.
  intros Hne. induction d as [|[k0 v0] d IH]; simpl.
  - destruct (k =? k') eqn:E; auto.
    apply String.eqb_eq in E. contradiction.
  - destruct (k0 =? k) eqn:E; simpl.
    + apply String.eqb_eq in E. subst k0.
      destruct (k =? k') eqn:E'; auto.
      apply String.eqb_eq in E'. contradiction.
    + rewrite IH. reflexivity.
Qed.

Lemma dict_get_none_keys (V : Type) (k : string) (d : Dict.t V) :
  Dict.get k d = None <-> ~ In k (Dict.keys d).
Proof.
  induction d as [|[k' v'] d IH]; simpl.
  - tauto.
  - destruct (k' =? k) eqn:E.
    + apply String.eqb_eq in E. split; [discriminate | tauto].
    + apply String.eqb_neq in E. tauto.
Qed.

Lemma dict_get_in (V : Type) (k : string) (v : V) (d : Dict.t V) :
  Dict.get k d = Some v -> In (k, v) d.
Proof.
  induction d as [|[k' v'] d IH]; simpl; [discriminate|].
  destruct (k' =? k) eqn:E; intros H.
  - apply String.eqb_eq in E. left. congruence.
  - auto.
Qed.

Lemma dict_in_get (V : Type) (k : string) (v : V) (d : Dict.t V) :
  NoDup (Dict.keys d) -> In (k, v) d -> Dict.get k d = Some v.
Proof.
  induction d as [|[k' v'] d IH]; simpl; [tauto|].
  intros Hnd [Heq | Hin]; inversion Hnd; subst.
  - inversion Heq; subst. rewrite String.eqb_refl. reflexivity.
  - destruct (k' =? k) eqn:E; auto.
    apply String.eqb_eq in E. subst k'.
    exfalso. apply H1. apply (in_map fst) in Hin. exact Hin.
Qed.

Lemma dict_in_set (V : Type) (k k' : string) (v v' : V) (d : Dict.t V) :
  In (k', v') (Dict.set k v d) -> (k' = k /\ v' = v) \/ In (k', v') d.
Proof.
  induction d as [|[k0 v0] d IH]; simpl.
  - intros [H | []]. inversion H. auto.
  - destruct (k0 =? k) eqn:E; simpl.
    + apply String.eqb_eq in E. subst k0.
      intros [H | H]; [inversion H; auto | auto].
    + intros [H | H]; [auto | destruct (IH H); auto].
Qed.

Lemma dict_in_pop (V : Type) (k : string) (kv : string * V)
  (d : Dict.t V) :
  In kv (Dict.pop k d) -> In kv d.
Proof.
  induction d as [|[k0 v0] d IH]; simpl; auto.
  destruct (k0 =? k); simpl; intuition.
Qed.

Lemma dict_set_fresh (V : Type) (k : string) (v : V) (d : Dict.t V) :
  Dict.get k d = None -> Dict.set k v d = (d ++ [(k, v)])%list.
Proof.
  induction d as [|[k0 v0] d IH]; simpl; auto.
  destruct (k0 =? k); [discriminate|].
  intros H. rewrite IH; auto.
Qed.

Lemma dict_keys_set (V : Type) (k : string) (v : V) (d : Dict.t V) :
  Dict.keys (Dict.set k v d)
  = if Dict.mem k d then Dict.keys d else (Dict.keys d ++ [k])%list.
Proof.
  unfold Dict.mem. induction d as [|[k0 v0] d IH]; simpl; auto.
  destruct (k0 =? k) eqn:E; simpl; auto.
  rewrite IH. destruct (Dict.get k d); reflexivity.
Qed.

Lemma nodup_snoc (A : Type) (x : A) (l : list A) :
  NoDup l -> ~ In x l -> NoDup (l ++ [x])%list.
Proof.
  induction l as [|y l IH]; simpl; intros Hnd Hnin.
  - constructor; [tauto | constructor].
  - inversion Hnd; subst. constructor.
    + rewrite in_app_iff. simpl. intuition congruence.
    + apply IH; tauto.
Qed.

Lemma dict_nodup_set (V : Type) (k : string) (v : V) (d : Dict.t V) :
  NoDup (Dict.keys d) -> NoDup (Dict.keys (Dict.set k v d)).
Proof.
  intros Hnd. rewrite dict_keys_set. unfold Dict.mem.
  destruct (Dict.get k d) eqn:E; auto.
  apply nodup_snoc; auto. apply dict_get_none_keys. exact E.
Qed.

Lemma dict_nodup_pop (V : Type) (k : string) (d : Dict.t V) :
  NoDup (Dict.keys d) -> NoDup (Dict.keys (Dict.pop k d)).
Proof.
  induction d as [|[k0 v0] d IH]; simpl; auto.
  intros Hnd. inversion Hnd; subst.
  destruct (k0 =? k); simpl; auto.
  constructor; auto.
  intros Hin. apply H1.
  apply in_map_iff in Hin. destruct Hin as [kv [Hk Hin]].
  apply dict_in_pop in Hin. subst k0. apply in_map. exact Hin.
Qed.

(** ** How the mutators run *)

Lemma add_alias_frozen (a c : string) (ov : bool)
  (self : ColumnAliasManager) :
  _frozen self = true -> add_alias a c ov self = (Raise FrozenError, self).
Proof.
  intros H. unfold add_alias, bind, _check_frozen. rewrite H. reflexivity.
Qed.

Lemma add_alias_unfrozen (a c : string) (ov : bool)
  (self : ColumnAliasManager) :
  _frozen self = false ->
  add_alias a c ov self =
  let stored :=
    {| _aliases := Dict.set (casefold a) c (_aliases self);
       _frozen := _frozen self |} in
  match Dict.get (casefold a) (_aliases self) with
  | Some existing =>
      if negb ov && negb (existing =? c)
      then (Raise (ConflictError a existing), self)
      else (Ok tt, stored)
  | None => (Ok tt, stored)
  end.
Proof.
  destruct self as [d f]. simpl. intros ->.
  unfold add_alias, bind, _check_frozen, _normalize. simpl.
  destruct (Dict.get (casefold a) d) as [existing|];
    [destruct (negb ov && negb (existing =? c))|]; reflexivity.
Qed.

(** A call of [add_alias] that returns has stored the pair. *)
Lemma add_alias_ok (a c : string) (ov : bool)
  (self : ColumnAliasManager) :
  fst (add_alias a c ov self) = Ok tt ->
  _frozen self = false /\
  snd (add_alias a c ov self)
  = {| _aliases := Dict.set (casefold a) c (_aliases self);
       _frozen := _frozen self |}.
Proof.
  destruct self as [d [|]].
  - rewrite add_alias_frozen by reflexivity. discriminate.
  - rewrite add_alias_unfrozen by reflexivity. simpl.
    destruct (Dict.get (casefold a) d) as [existing|];
      [destruct (negb ov && negb (existing =? c))|];
      simpl; intros H; try discriminate; split; reflexivity.
Qed.

(** ** Lookup after registration *)

(** C1. After a call [add_alias a c] that returns, [canonical] maps to
    [c] every string whose case folding is that of [a], and [a] itself:
    the lookup key is the case folding of the name, whatever its
    casing. *)
Theorem canonical_after_add_alias (a c : string) (ov : bool)
  (self : ColumnAliasManager) (a' : string) :
  fst (add_alias a c ov self) = Ok tt ->
  casefold a' = casefold a ->
  canonical (snd (add_alias a c ov self)) a' = c
  /\ canonical (snd (add_alias a c ov self)) a = c.
Proof.
  intros Hok Hfold. destruct (add_alias_ok _ _ _ _ Hok) as [_ ->].
  unfold canonical, _normalize. simpl.
  rewrite Hfold, dict_get_set_same. auto.
Qed.

(** ** Construction *)

(** C4. The constructor given a mapping with an entry and
    [frozen=True] raises: the flag is stored first and the first
    [add_alias] finds it set.  A frozen manager comes out of the
    constructor only with no entry at all. *)
Theorem init_frozen_with_mapping_raises (a c : string)
  (mapping : list (string * string)) :
  __init__ (Some ((a, c) :: mapping)) true = Raise FrozenError
  /\ __init__ (Some [("qty", "quantity")]) true = Raise FrozenError
  /\ __init__ None true = Ok {| _aliases := []; _frozen := true |}
  /\ __init__ (Some []) true = Ok {| _aliases := []; _frozen := true |}.
Proof.
  repeat split.
Qed.

(** ** Freezing *)

Lemma remove_alias_frozen (a : string) (self : ColumnAliasManager) :
  _frozen self = true -> remove_alias a self = (Raise FrozenError, self).
Proof.
  intros H. unfold remove_alias, bind, _check_frozen. rewrite H.
  reflexivity.
Qed.

Lemma clear_frozen (self : ColumnAliasManager) :
  _frozen self = true -> clear self = (Raise FrozenError, self).
Proof.
  intros H. unfold clear, bind, _check_frozen. rewrite H. reflexivity.
Qed.

Lemma for_each_frozen (A : Type) (body : A -> M unit) (xs : list A)
  (self : ColumnAliasManager) :
  (forall x, body x self = (Raise FrozenError, self)) ->
  for_each body xs self
  = (match xs with [] => Ok tt | _ :: _ => Raise FrozenError end, self).
Proof.
  intros H. destruct xs as [|x xs]; simpl; auto.
  unfold bind. rewrite H. reflexivity.
Qed.

Lemma add_alias_groups_frozen (groups : list (string * list string))
  (ov : bool) (self : ColumnAliasManager) :
  _frozen self = true ->
  add_alias_groups groups ov self
  = (if forallb no_alias groups then Ok tt else Raise FrozenError, self).
Proof.
  intros H. unfold add_alias_groups.
  induction groups as [|[c aliases] groups IH]; simpl; auto.
  unfold bind at 1. simpl.
  rewrite for_each_frozen by (intros; apply add_alias_frozen; exact H).
  destruct aliases; simpl; auto.
Qed.

(** C6, as the code has it. [freeze] returns, sets the flag, keeps the
    aliases, and a second [freeze] changes nothing more.  On the frozen
    manager [add_alias], [remove_alias] and [clear] raise FrozenError
    whatever their arguments; [add_aliases] and [add_alias_groups] raise
    it when they have a pair to add and return otherwise; every one of
    them leaves the manager as it was. *)
Theorem freeze_then_mutate (self : ColumnAliasManager) :
  let fz := snd (freeze self) in
  fst (freeze self) = Ok tt
  /\ _frozen fz = true
  /\ _aliases fz = _aliases self
  /\ freeze fz = (Ok tt, fz)
  /\ (forall a c ov, add_alias a c ov fz = (Raise FrozenError, fz))
  /\ (forall a, remove_alias a fz = (Raise FrozenError, fz))
  /\ clear fz = (Raise FrozenError, fz)
  /\ (forall m ov,
        add_aliases m ov fz
        = (match m with [] => Ok tt | _ :: _ => Raise FrozenError end,
           fz))
  /\ (forall g ov,
        add_alias_groups g ov fz
        = (if forallb no_alias g then Ok tt else Raise FrozenError, fz)).
Proof.
  simpl. repeat split; intros.
  - apply for_each_frozen. intros. apply add_alias_frozen. reflexivity.
  - apply add_alias_groups_frozen. reflexivity.
Qed.

(** ** Batch resolution *)

Lemma resolve_nth (self : ColumnAliasManager) (cols : list label)
  (i : nat) :
  nth_error
    (map (fun col =>
            match col with
            | Str s => Str (canonical self s)
            | _ => col
            end) cols) i
  = match nth_error cols i with
    | Some (Str s) => Some (Str (canonical self s))
    | other => other
    end.
Proof.
  revert i. induction cols as [|col cols IH]; intros [|i]; simpl; auto.
  destruct col; reflexivity.
Qed.

(** ** Scenarios on ASCII names *)

(** [str.casefold] lowers an ASCII string and leaves the rest of it. *)
Hypothesis casefold_ascii :
  forall s, is_ascii s = true -> casefold s = ascii_lower s.

(** Running the model on ASCII literals: unfold the model, replace
    each [casefold] of a literal by the lowered literal, decide the
    comparisons of literals, and go on. *)
Local Ltac fold_literals :=
  repeat match goal with
         | |- context [casefold ?s] =>
             let v := eval vm_compute in (ascii_lower s) in
             replace (casefold s) with v
               by (rewrite (casefold_ascii s eq_refl); reflexivity)
         end.

Local Ltac compare_literals :=
  repeat match goal with
         | |- context [String.eqb ?a ?b] =>
             let v := eval vm_compute in (String.eqb a b) in
             change (String.eqb a b) with v
         end.

Local Ltac run_model :=
  repeat progress
    (cbv [to_canonical restore_aliases build_rename_map collisions_of
          in_normalized_columns _normalize canonical resolve
          rename rename_label set_attr columns cells attrs
          _aliases _frozen
          Dict.get Dict.set Dict.pop Dict.mem Dict.of_items Dict.keys
          existsb filter map fold_left fst snd orb andb negb];
     fold_literals; compare_literals).

(** C7. Registering [qty] for [quantity] and then for [count] without
    [overwrite] raises ConflictError and changes nothing; with
    [overwrite] the second call returns and [QTY] resolves to [count].
    On an unfrozen manager [add_alias] without [overwrite] raises
    ConflictError exactly when the normalized alias is a key with
    another canonical name, and then the manager is as before. *)
Theorem add_alias_conflict :
  (forall self ov,
      fst (add_alias "qty" "quantity" ov self) = Ok tt ->
      let r1 := snd (add_alias "qty" "quantity" ov self) in
      add_alias "qty" "count" false r1
      = (Raise (ConflictError "qty" "quantity"), r1)
      /\ canonical r1 "qty" = "quantity"
      /\ fst (add_alias "qty" "count" true r1) = Ok tt
      /\ canonical (snd (add_alias "qty" "count" true r1)) "QTY"
         = "count")
  /\ (forall self a c existing,
         _frozen self = false ->
         (fst (add_alias a c false self) = Raise (ConflictError a existing)
          <-> Dict.get (_normalize a) (_aliases self) = Some existing
              /\ existing <> c))
  /\ (forall self a c e,
         _frozen self = false ->
         fst (add_alias a c false self) = Raise e ->
         (exists existing, e = ConflictError a existing)
         /\ snd (add_alias a c false self) = self).
Proof using casefold_ascii.
  split; [|split].
  - intros self ov Hok r1. subst r1.
    destruct (add_alias_ok _ _ _ _ Hok) as [Hfz ->].
    rewrite !add_alias_unfrozen by exact Hfz.
    unfold canonical, _normalize. simpl.
    rewrite !dict_get_set_same. simpl.
    fold_literals. rewrite !dict_get_set_same. auto.
  - intros self a c existing Hfz.
    rewrite add_alias_unfrozen by exact Hfz. unfold _normalize. simpl.
    destruct (Dict.get (casefold a) (_aliases self)) as [x|].
    + destruct (x =? c) eqn:E; simpl.
      * apply String.eqb_eq in E. subst x.
        split; [discriminate | intros [H1 H2]; congruence].
      * apply String.eqb_neq in E.
        split; intros H; [inversion H; subst; auto|].
        destruct H as [H _]. congruence.
    + split; [discriminate | intros [H _]; discriminate].
  - intros self a c e Hfz.
    rewrite add_alias_unfrozen by exact Hfz. simpl.
    destruct (Dict.get (casefold a) (_aliases self)) as [x|];
      [destruct (x =? c)|]; simpl; intros H; inversion H; eauto.
Qed.

(** C8. [resolve] gives no result exactly for no input.  For a sequence
    it gives a sequence as long, with [canonical] of the label where the
    label is a string and the label itself where it is not; with [qty]
    registered for [quantity], the labels [Qty], 42 resolve to
    [quantity], 42. *)
Theorem resolve_labels (self : ColumnAliasManager) :
  (forall columns, resolve self columns = None <-> columns = None)
  /\ (forall cols, exists out,
         resolve self (Some cols) = Some out
         /\ List.length out = List.length cols
         /\ forall i,
             nth_error out i
             = match nth_error cols i with
               | Some (Str s) => Some (Str (canonical self s))
               | other => other
               end)
  /\ (forall ov,
         fst (add_alias "qty" "quantity" ov self) = Ok tt ->
         resolve (snd (add_alias "qty" "quantity" ov self))
           (Some [Str "Qty"; Int 42])
         = Some [Str "quantity"; Int 42]).
Proof using casefold_ascii.
  split; [|split].
  - intros [cols|]; simpl; split; intros H; (discriminate || reflexivity).
  - intros cols. eexists. split; [reflexivity|]. split.
    + apply length_map.
    + intros i. apply resolve_nth.
  - intros ov Hok. destruct (add_alias_ok _ _ _ _ Hok) as [_ ->].
    unfold resolve, canonical, _normalize. simpl.
    fold_literals. rewrite dict_get_set_same. reflexivity.
Qed.

(** ** Renaming a table and back *)

Lemma init_qty_amt :
  __init__ (Some [("qty", "quantity"); ("amt", "amount")]) false
  = Ok {| _aliases := [("qty", "quantity"); ("amt", "amount")];
          _frozen := false |}.
Proof using casefold_ascii.
  unfold __init__, add_aliases, for_each, bind.
  rewrite add_alias_unfrozen by reflexivity. run_model.
  rewrite add_alias_unfrozen by reflexivity. run_model.
  reflexivity.
Qed.

(** C3. With [qty] registered for [quantity] and [amt] for [amount], a
    table with the columns [qty], [amt] comes out of [to_canonical]
    with the columns [quantity], [amount] and the rename record
    [{qty: quantity, amt: amount}] under the key [alias_map]; out of
    [restore_aliases] that table comes with the columns [qty], [amt]
    again.  The cells are those of the first table throughout. *)
Theorem rename_restore_round_trip
  (cs : list (list Z)) (bag : Dict.t attr)
  (inplace drop_conflicts inplace' strict : bool) :
  let df := {| columns := [Str "qty"; Str "amt"];
               cells := cs; attrs := bag |} in
  let record := [("qty", "quantity"); ("amt", "amount")] in
  exists self renamed restored,
    __init__ (Some [("qty", "quantity"); ("amt", "amount")]) false
    = Ok self
    /\ to_canonical self df inplace drop_conflicts true
       = Ok (renamed, if inplace then renamed else df)
    /\ columns renamed = [Str "quantity"; Str "amount"]
    /\ Dict.get "alias_map" (attrs renamed) = Some (RenameRecord record)
    /\ cells renamed = cs
    /\ restore_aliases self renamed inplace' strict
       = Ok (restored, if inplace' then restored else renamed)
    /\ columns restored = [Str "qty"; Str "amt"]
    /\ cells restored = cs.
Proof using casefold_ascii.
  intros df record. subst df record.
  eexists. eexists. eexists.
  split; [apply init_qty_amt|].
  split; [run_model; reflexivity|].
  split; [reflexivity|].
  split; [apply (dict_get_set_same _ _ATTR_KEY)|].
  split; [reflexivity|].
  unfold restore_aliases. simpl attrs.
  rewrite dict_get_set_same.
  repeat split; reflexivity.
Qed.

(** ** Collisions *)

(** What [to_canonical] does with its rename map, in one equation. *)
Lemma to_canonical_unfold (self : ColumnAliasManager) (df : DataFrame)
  (inplace drop_conflicts remember : bool) (rename_map : Dict.t string) :
  build_rename_map self (columns df) [] = Ok rename_map ->
  to_canonical self df inplace drop_conflicts remember
  = match collisions_of (columns df) rename_map with
    | [] =>
        let target := rename rename_map df in
        let target :=
          if remember
          then set_attr _ATTR_KEY (RenameRecord rename_map) target
          else target in
        Ok (target, if inplace then target else df)
    | (_ :: _) as collisions =>
        if drop_conflicts
        then
          let pruned :=
            fold_left (fun m a => Dict.pop a m) collisions rename_map in
          let target := rename pruned df in
          let target :=
            if remember
            then set_attr _ATTR_KEY (RenameRecord pruned) target
            else target in
          Ok (target, if inplace then target else df)
        else Raise (CollisionError collisions)
    end.
Proof.
  intros H. unfold to_canonical. rewrite H.
  destruct (collisions_of (columns df) rename_map); [reflexivity|].
  destruct drop_conflicts; reflexivity.
Qed.

(** The aliases the code reports: those of the rename map whose
    normalized canonical name is the normalized label of any column,
    their own included, and that differ from their canonical name. *)
Lemma collisions_of_spec (cols : list label) (rename_map : Dict.t string)
  (alias : string) :
  In alias (collisions_of cols rename_map)
  <-> exists canonical,
        In (alias, canonical) rename_map
        /\ alias <> canonical
        /\ exists other,
             In (Str other) cols
             /\ _normalize other = _normalize canonical.
Proof.
  unfold collisions_of, in_normalized_columns.
  rewrite in_map_iff. split.
  - intros [[a c] [Ha Hin]]. simpl in Ha. subst a.
    apply filter_In in Hin. destruct Hin as [Hin Hc]. simpl in Hc.
    apply andb_true_iff in Hc. destruct Hc as [Hex Hne].
    apply existsb_exists in Hex. destruct Hex as [col [Hcol Heq]].
    destruct col as [other| |]; try discriminate.
    apply String.eqb_eq in Heq.
    apply negb_true_iff, String.eqb_neq in Hne.
    exists c. eauto.
  - intros [c [Hin [Hne [other [Hcol Heq]]]]].
    exists (alias, c). split; [reflexivity|].
    apply filter_In. split; [exact Hin|]. simpl.
    apply andb_true_iff. split.
    + apply existsb_exists. exists (Str other). split; [exact Hcol|].
      apply String.eqb_eq. exact Heq.
    + apply negb_true_iff, String.eqb_neq. exact Hne.
Qed.

Lemma build_rename_map_raises (self : ColumnAliasManager)
  (cols : list label) (acc : Dict.t string) (e : error) :
  build_rename_map self cols acc = Raise e -> e = AttributeError.
Proof.
  revert acc. induction cols as [|col cols IH]; intros acc; simpl.
  - discriminate.
  - destruct col as [s | z | items]; try (intros H; congruence).
    destruct (Dict.get (_normalize s) (_aliases self)); apply IH.
Qed.

(** When [to_canonical] without [drop_conflicts] raises for collisions,
    and with which aliases. *)
Lemma to_canonical_collision_iff (self : ColumnAliasManager)
  (df : DataFrame) (inplace remember : bool) (reported : list string) :
  to_canonical self df inplace false remember
  = Raise (CollisionError reported)
  <-> exists rename_map,
        build_rename_map self (columns df) [] = Ok rename_map
        /\ collisions_of (columns df) rename_map = reported
        /\ reported <> [].
Proof.
  destruct (build_rename_map self (columns df) []) as [rename_map|e] eqn:E.
  - rewrite (to_canonical_unfold _ _ _ _ _ _ E).
    destruct (collisions_of (columns df) rename_map) as [|a l] eqn:Ec.
    + split; [discriminate|].
      intros [m [Hm [Hc Hne]]]. inversion Hm; subst m.
      rewrite Ec in Hc. congruence.
    + split.
      * intros H. inversion H; subst reported.
        exists rename_map. rewrite Ec. repeat split. discriminate.
      * intros [m [Hm [Hc Hne]]]. inversion Hm; subst m.
        rewrite Ec in Hc. subst reported. reflexivity.
  - unfold to_canonical. rewrite E.
    pose proof (build_rename_map_raises _ _ _ _ E) as ->.
    split; [discriminate | intros [m [Hm _]]; discriminate].
Qed.

(** Every collision of the specification is one the code reports; the
    converse fails, as the next theorem shows. *)
Lemma spec_collision_reported (cols : list label)
  (rename_map : Dict.t string) (alias canonical : string) :
  In (alias, canonical) rename_map ->
  spec_collision cols alias canonical ->
  In alias (collisions_of cols rename_map).
Proof.
  intros Hin [Hne [i [j [other [_ [_ [Hj Heq]]]]]]].
  apply collisions_of_spec. exists canonical.
  split; [exact Hin|]. split; [exact Hne|].
  exists other. split; [|exact Heq].
  apply nth_error_In with (n := j). exact Hj.
Qed.

(** C2, at the input where the code leaves the claim.  [quantity] is
    registered for [Quantity] and the table has the one column
    [quantity]: the rename map is [{quantity: Quantity}], no other column
    exists, so the entry is no collision as the specification words it
    and the rename would overwrite nothing; [to_canonical] raises
    CollisionError for it all the same, and with [drop_conflicts] leaves
    the column unrenamed. *)
Theorem to_canonical_flags_own_column
  (cs : list (list Z)) (bag : Dict.t attr) (inplace remember : bool) :
  let df := {| columns := [Str "quantity"]; cells := cs; attrs := bag |} in
  exists self,
    __init__ (Some [("quantity", "Quantity")]) false = Ok self
    /\ build_rename_map self (columns df) []
       = Ok [("quantity", "Quantity")]
    /\ ~ spec_collision (columns df) "quantity" "Quantity"
    /\ to_canonical self df inplace false remember
       = Raise (CollisionError ["quantity"])
    /\ exists kept,
         to_canonical self df false true false = Ok (kept, df)
         /\ columns kept = [Str "quantity"].
Proof using casefold_ascii.
  intros df. subst df.
  exists {| _aliases := [("quantity", "Quantity")]; _frozen := false |}.
  split.
  { unfold __init__, add_aliases, for_each, bind.
    rewrite add_alias_unfrozen by reflexivity. run_model. reflexivity. }
  split; [run_model; reflexivity|].
  split.
  { intros [_ [i [j [other [Hij [Hi [Hj _]]]]]]]. simpl in Hi, Hj.
    destruct i as [|i]; [|destruct i; discriminate].
    destruct j as [|j]; [congruence | destruct j; discriminate]. }
  split; [run_model; reflexivity|].
  eexists. split; [run_model; reflexivity | reflexivity].
Qed.

(** ** Renaming without remembering *)

(** C10. A table that [to_canonical] returns with [remember=False] has
    the [attrs] of the table given, so the entry under [alias_map] is
    the one that was there, and a record left by an earlier call is
    what [restore_aliases] then reads; the cells are the same and there
    are as many columns. *)
Theorem to_canonical_without_remember
  (self : ColumnAliasManager) (df : DataFrame)
  (inplace drop_conflicts : bool) (target df' : DataFrame) :
  to_canonical self df inplace drop_conflicts false = Ok (target, df') ->
  attrs target = attrs df
  /\ Dict.get "alias_map" (attrs target) = Dict.get "alias_map" (attrs df)
  /\ cells target = cells df
  /\ List.length (columns target) = List.length (columns df)
  /\ (forall stale inplace' strict,
         Dict.get "alias_map" (attrs df) = Some (RenameRecord stale) ->
         exists restored,
           restore_aliases self target inplace' strict
           = Ok (restored, if inplace' then restored else target)
           /\ restored
              = rename
                  (Dict.of_items (map (fun ac => (snd ac, fst ac)) stale))
                  target).
Proof.
  unfold to_canonical.
  destruct (build_rename_map self (columns df) []) as [rename_map|];
    [|discriminate].
  assert (Hrename : forall m,
             attrs (rename m df) = attrs df
             /\ cells (rename m df) = cells df
             /\ List.length (columns (rename m df))
                = List.length (columns df)).
  { intros m. simpl. destruct (multi_index (columns df));
      rewrite length_map; auto. }
  intros H.
  assert (Hm : exists m, target = rename m df).
  { destruct (collisions_of (columns df) rename_map);
      [|destruct drop_conflicts; [|discriminate]];
      inversion H; eauto. }
  destruct Hm as [m ->]. destruct (Hrename m) as [Ha [Hc Hl]].
  repeat split; auto.
  intros stale inplace' strict Hstale. eexists. split; [|reflexivity].
  unfold restore_aliases, _ATTR_KEY. rewrite Ha, Hstale. reflexivity.
Qed.

(** ** What the mutators keep *)

Lemma snd_bind_raise (A B : Type) (m : M A) (k : A -> M B)
  (self : ColumnAliasManager) (e : error) :
  fst (m self) = Raise e -> snd (bind m k self) = snd (m self).
Proof.
  unfold bind. destruct (m self) as [[a|e'] self']; simpl;
    [discriminate | reflexivity].
Qed.

Lemma for_each_cons (A : Type) (body : A -> M unit) (x : A)
  (xs : list A) (self : ColumnAliasManager) :
  snd (for_each body (x :: xs) self)
  = match fst (body x self) with
    | Ok _ => snd (for_each body xs (snd (body x self)))
    | Raise _ => snd (body x self)
    end.
Proof.
  simpl. unfold bind. destruct (body x self) as [[u|e] self']; reflexivity.
Qed.

Lemma for_each_keeps (A : Type) (body : A -> M unit)
  (Q : ColumnAliasManager -> Prop) :
  (forall x self, Q self -> Q (snd (body x self))) ->
  forall xs self, Q self -> Q (snd (for_each body xs self)).
Proof.
  intros Hbody xs. induction xs as [|x xs IH]; intros self HQ.
  - exact HQ.
  - rewrite for_each_cons.
    destruct (fst (body x self)); auto.
Qed.

Lemma add_alias_aliases (a c : string) (ov : bool)
  (self : ColumnAliasManager) :
  _aliases (snd (add_alias a c ov self)) = _aliases self
  \/ _aliases (snd (add_alias a c ov self))
     = Dict.set (_normalize a) c (_aliases self).
Proof.
  destruct self as [d [|]].
  - rewrite add_alias_frozen by reflexivity. auto.
  - rewrite add_alias_unfrozen by reflexivity. unfold _normalize. simpl.
    destruct (Dict.get (casefold a) d) as [x|];
      [destruct (negb ov && negb (x =? c))|]; simpl; auto.
Qed.

Lemma remove_alias_aliases (a : string) (self : ColumnAliasManager) :
  _aliases (snd (remove_alias a self)) = _aliases self
  \/ _aliases (snd (remove_alias a self))
     = Dict.pop (_normalize a) (_aliases self).
Proof.
  destruct self as [d [|]]; [left | right]; reflexivity.
Qed.

Lemma clear_aliases (self : ColumnAliasManager) :
  _aliases (snd (clear self)) = _aliases self
  \/ _aliases (snd (clear self)) = [].
Proof.
  destruct self as [d [|]]; [left | right]; reflexivity.
Qed.

(** Keys stay distinct. *)
Lemma call_keeps_nodup (op : mutation) (self : ColumnAliasManager) :
  NoDup (Dict.keys (_aliases self)) ->
  NoDup (Dict.keys (_aliases (snd (call op self)))).
Proof.
  assert (Hadd : forall a c ov self,
             NoDup (Dict.keys (_aliases self)) ->
             NoDup (Dict.keys (_aliases (snd (add_alias a c ov self))))).
  { intros a c ov s H.
    destruct (add_alias_aliases a c ov s) as [-> | ->];
      [exact H | apply dict_nodup_set; exact H]. }
  destruct op as [a c ov | m ov | g ov | a | |]; simpl; intros H.
  - apply Hadd. exact H.
  - unfold add_aliases.
    apply (for_each_keeps _ _
             (fun s => NoDup (Dict.keys (_aliases s)))); auto.
  - unfold add_alias_groups.
    apply (for_each_keeps _ _
             (fun s => NoDup (Dict.keys (_aliases s)))); auto.
    intros x s Hs.
    apply (for_each_keeps _ _
             (fun s => NoDup (Dict.keys (_aliases s)))); auto.
  - destruct (remove_alias_aliases a self) as [-> | ->];
      [exact H | apply dict_nodup_pop; exact H].
  - destruct (clear_aliases self) as [-> | ->];
      [exact H | constructor].
  - exact H.
Qed.

Lemma stored_mono (h h' : list (string * string))
  (self : ColumnAliasManager) :
  incl h h' -> stored_as_supplied h self -> stored_as_supplied h' self.
Proof.
  intros Hincl H k v Hin. destruct (H k v Hin) as [a [Ha Hk]].
  exists a. split; [apply Hincl; exact Ha | exact Hk].
Qed.

Lemma add_alias_stored (a c : string) (ov : bool)
  (h : list (string * string)) (self : ColumnAliasManager) :
  stored_as_supplied h self ->
  stored_as_supplied ((a, c) :: h) (snd (add_alias a c ov self)).
Proof.
  intros H k v Hin.
  destruct (add_alias_aliases a c ov self) as [E | E];
    rewrite E in Hin.
  - destruct (H k v Hin) as [a0 [Ha Hk]]. exists a0. simpl. auto.
  - apply dict_in_set in Hin. destruct Hin as [[-> ->] | Hin].
    + exists a. simpl. auto.
    + destruct (H k v Hin) as [a0 [Ha Hk]]. exists a0. simpl. auto.
Qed.

Lemma for_each_stored (A : Type) (body : A -> M unit)
  (sup : A -> list (string * string)) :
  (forall x h self,
      stored_as_supplied h self ->
      stored_as_supplied (sup x ++ h)%list (snd (body x self))) ->
  forall xs h self,
    stored_as_supplied h self ->
    stored_as_supplied (flat_map sup xs ++ h)%list
      (snd (for_each body xs self)).
Proof.
  intros Hbody xs. induction xs as [|x xs IH]; intros h self H.
  - exact H.
  - rewrite for_each_cons. simpl.
    pose proof (Hbody x h self H) as Hx.
    destruct (fst (body x self)).
    + apply (stored_mono (flat_map sup xs ++ (sup x ++ h))%list).
      * intros p Hp. rewrite !in_app_iff in *. tauto.
      * apply IH. exact Hx.
    + apply (stored_mono (sup x ++ h)%list); [|exact Hx].
      intros p Hp. rewrite !in_app_iff in *. tauto.
Qed.

Lemma call_stored (op : mutation) (h : list (string * string))
  (self : ColumnAliasManager) :
  stored_as_supplied h self ->
  stored_as_supplied (supplied op ++ h)%list (snd (call op self)).
Proof.
  destruct op as [a c ov | m ov | g ov | a | |]; simpl; intros H.
  - apply add_alias_stored. exact H.
  - apply (stored_mono (flat_map (fun ac => [ac]) m ++ h)%list).
    + intros p Hp. rewrite in_app_iff in *. destruct Hp as [Hp | Hp]; auto.
      left. apply in_flat_map in Hp. destruct Hp as [x [Hx [<- | []]]].
      exact Hx.
    + unfold add_aliases. apply for_each_stored; [|exact H].
      intros [a c] h0 s Hs. simpl. apply add_alias_stored. exact Hs.
  - unfold add_alias_groups. apply for_each_stored; [|exact H].
    intros [c aliases] h0 s Hs. simpl.
    apply (stored_mono
             (flat_map (fun a => [(a, c)]) aliases ++ h0)%list).
    + intros p Hp. rewrite in_app_iff in *.
      destruct Hp as [Hp | Hp]; auto; left;
        apply in_flat_map in Hp; destruct Hp as [x [Hx [<- | []]]];
        apply in_map_iff; eauto.
    + apply for_each_stored; [|exact Hs].
      intros a h1 s1 Hs1. simpl. apply add_alias_stored. exact Hs1.
  - intros k v Hin.
    destruct (remove_alias_aliases a self) as [E | E]; rewrite E in Hin;
      [|apply dict_in_pop in Hin]; auto.
  - intros k v Hin.
    destruct (clear_aliases self) as [E | E]; rewrite E in Hin;
      [auto | destruct Hin].
  - exact H.
Qed.

Lemma init_is_call (mapping : option (list (string * string)))
  (frozen : bool) (self : ColumnAliasManager) :
  __init__ mapping frozen = Ok self ->
  self
  = snd (call (AddAliases
                 (match mapping with Some m => m | None => [] end) false)
           {| _aliases := []; _frozen := frozen |}).
Proof.
  unfold __init__. destruct mapping as [[|ac m]|]; simpl.
  - intros H. inversion H. reflexivity.
  - change (bind (add_alias (fst ac) (snd ac) false)
              (fun _ =>
                 for_each (fun ac => add_alias (fst ac) (snd ac) false) m))
      with (add_aliases (ac :: m) false).
    destruct (add_aliases (ac :: m) false _) as [[u|e] self'];
      intros H; inversion H. reflexivity.
  - intros H. inversion H. reflexivity.
Qed.

Lemma init_stored (mapping : option (list (string * string)))
  (frozen : bool) (self : ColumnAliasManager) :
  __init__ mapping frozen = Ok self ->
  stored_as_supplied (match mapping with Some m => m | None => [] end)
    self.
Proof.
  intros H. rewrite (init_is_call _ _ _ H).
  eapply stored_mono; [|apply call_stored with (h := [])].
  - simpl. rewrite app_nil_r. apply incl_refl.
  - intros k v [].
Qed.

Lemma constructible_nodup (self : ColumnAliasManager) :
  constructible self -> NoDup (Dict.keys (_aliases self)).
Proof.
  induction 1 as [mapping frozen self H | op self _ IH].
  - rewrite (init_is_call _ _ _ H). apply call_keeps_nodup. constructor.
  - apply call_keeps_nodup. exact IH.
Qed.

Lemma constructible_stored (self : ColumnAliasManager) :
  constructible self -> exists h, stored_as_supplied h self.
Proof.
  induction 1 as [mapping frozen self H | op self _ [h IH]].
  - eexists. apply (init_stored _ _ _ H).
  - eexists. apply call_stored. exact IH.
Qed.

(** ** The shape of the alias map *)

(** Folding a folded string changes nothing. *)
Hypothesis casefold_idem : forall s, casefold (casefold s) = casefold s.

(** C9. The pairs of the alias map are supplied pairs after the
    constructor, after every mutator whether it returned or raised, and
    after [from_json]: each key is the case folding of an alias handed
    in, and so a fixed point of case folding, and each value is the
    canonical name handed in with that alias, as it was written
    ([Qty] registered for [Quantity] is stored as [qty] for
    [Quantity]). *)
Theorem aliases_shape_kept :
  (forall mapping frozen self,
      __init__ mapping frozen = Ok self ->
      stored_as_supplied
        (match mapping with Some m => m | None => [] end) self)
  /\ (forall op h self,
         stored_as_supplied h self ->
         stored_as_supplied (supplied op ++ h)%list (snd (call op self)))
  /\ (forall s self,
         from_json s = Some (Ok self) ->
         exists mapping,
           ((exists v,
                json_loads s = Some v /\ truthy v = false
                /\ mapping = [])
            \/ exists members,
                 json_loads s = Some (JObject members)
                 /\ string_members members = Some mapping)
           /\ stored_as_supplied mapping self)
  /\ (forall h self k v,
         stored_as_supplied h self ->
         In (k, v) (_aliases self) ->
         _normalize k = k /\ exists a, In (a, v) h /\ k = _normalize a)
  /\ (forall self k v,
         constructible self ->
         In (k, v) (_aliases self) ->
         _normalize k = k /\ exists a, k = _normalize a)
  /\ (forall self,
         fst (add_alias "Qty" "Quantity" false self) = Ok tt ->
         Dict.get "qty" (_aliases (snd (add_alias "Qty" "Quantity" false
                                          self)))
         = Some "Quantity").
Proof using casefold_ascii casefold_idem.
  assert (Hfix : forall h self k v,
             stored_as_supplied h self ->
             In (k, v) (_aliases self) ->
             _normalize k = k
             /\ exists a, In (a, v) h /\ k = _normalize a).
  { intros h self k v H Hin. destruct (H k v Hin) as [a [Ha Hk]].
    split; [|eauto]. subst k. unfold _normalize. apply casefold_idem. }
  repeat split.
  - apply init_stored.
  - intros. apply call_stored. assumption.
  - intros s self. unfold from_json.
    destruct (json_loads s) as [v|]; [|discriminate].
    destruct (truthy v) eqn:Ht.
    + destruct v as [| b | z | zero | t | items | members];
        try discriminate.
      destruct (string_members members) as [mapping|] eqn:E;
        [|discriminate].
      intros H.
      assert (H' : __init__ (Some mapping) false = Ok self) by congruence.
      exists mapping. split; [right; exists members; auto|].
      apply (init_stored _ _ _ H').
    + intros H.
      assert (H' : __init__ None false = Ok self) by congruence.
      exists []. split; [left; exists v; auto|].
      apply (init_stored _ _ _ H').
  - eapply Hfix; eassumption.
  - eapply Hfix; eassumption.
  - destruct (constructible_stored _ H) as [h Hh].
    eapply Hfix; eassumption.
  - destruct (constructible_stored _ H) as [h Hh].
    destruct (Hfix _ _ _ _ Hh H0) as [_ [a [_ Ha]]]. eauto.
  - intros self Hok. destruct (add_alias_ok _ _ _ _ Hok) as [_ ->].
    simpl. fold_literals. apply dict_get_set_same.
Qed.

(** ** Saving and loading *)

(** Loading distinct folded keys into an unfrozen manager appends them
    in their order. *)
Lemma add_aliases_reload (d acc : Dict.t string) :
  NoDup (Dict.keys (acc ++ d)%list) ->
  (forall k v, In (k, v) d -> casefold k = k) ->
  add_aliases d false {| _aliases := acc; _frozen := false |}
  = (Ok tt, {| _aliases := (acc ++ d)%list; _frozen := false |}).
Proof.
  unfold add_aliases. revert acc.
  induction d as [|[k v] d IH]; intros acc Hnd Hfix; simpl.
  - rewrite app_nil_r. reflexivity.
  - unfold bind. rewrite add_alias_unfrozen by reflexivity. simpl.
    rewrite (Hfix k v) by (left; reflexivity).
    assert (Hfresh : Dict.get k acc = None).
    { apply dict_get_none_keys. unfold Dict.keys in *.
      rewrite map_app in Hnd. simpl in Hnd.
      apply NoDup_remove_2 in Hnd. rewrite in_app_iff in Hnd. tauto. }
    rewrite Hfresh, (dict_set_fresh _ _ _ _ Hfresh).
    rewrite IH.
    + rewrite <- app_assoc. reflexivity.
    + rewrite <- app_assoc. exact Hnd.
    + intros k' v' Hin. apply (Hfix k' v'). right. exact Hin.
Qed.

Lemma string_members_of_aliases (d : Dict.t string) :
  string_members (map (fun kv => (fst kv, JString (snd kv))) d) = Some d.
Proof.
  induction d as [|[k v] d IH]; simpl; [reflexivity|].
  rewrite IH. reflexivity.
Qed.

(** C5, as the code has it.  For a manager a program can hold whose
    alias map [json.loads] gives back from the text [json.dumps] writes
    of it, [from_json] of its [to_json] returns a manager, unfrozen,
    with the same alias map, so that [canonical] answers the same on
    every name and every registered alias is registered in it. *)
Theorem json_round_trip (self : ColumnAliasManager) :
  constructible self ->
  json_loads (json_dumps (_aliases self))
  = Some (json_of_aliases (_aliases self)) ->
  exists loaded,
    from_json (to_json self) = Some (Ok loaded)
    /\ _aliases loaded = _aliases self
    /\ _frozen loaded = false
    /\ (forall name, canonical loaded name = canonical self name)
    /\ (forall alias,
           __contains__ loaded alias = __contains__ self alias).
Proof using casefold_idem.
  intros Hc Hjson.
  pose proof (constructible_nodup _ Hc) as Hnd.
  destruct (constructible_stored _ Hc) as [h Hst].
  exists {| _aliases := _aliases self; _frozen := false |}.
  split; [|repeat split].
  unfold from_json, to_json. rewrite Hjson. unfold json_of_aliases.
  destruct (_aliases self) as [|ac d] eqn:E; [reflexivity|].
  rewrite <- E in *. rewrite E at 1. simpl truthy. cbv iota.
  rewrite string_members_of_aliases. f_equal.
  unfold __init__. rewrite E. rewrite <- E.
  rewrite add_aliases_reload; [reflexivity | exact Hnd |].
  intros k v Hin.
  destruct (Hst k v Hin) as [a [_ ->]]. apply casefold_idem.
Qed.
End Manager.

(** * The reference runtime meets the hypotheses *)

Lemma lower_byte_idem (c : ascii) : lower_byte (lower_byte c) = lower_byte c.
Proof. destruct c as [[] [] [] [] [] [] [] []]; reflexivity. Qed.

Lemma lower_byte_not_lead (c : ascii) :
  is_lead2 c = false -> is_lead2 (lower_byte c) = false.
Proof.
  destruct c as [[] [] [] [] [] [] [] []]; intros H;
    exact H || reflexivity.
Qed.

Lemma ascii_not_lead (c : ascii) :
  (nat_of_ascii c <? 128)%nat = true -> is_lead2 c = false.
Proof.
  unfold is_lead2. intros H. apply Nat.ltb_lt in H.
  destruct (194 <=? nat_of_ascii c)%nat eqn:E; [|reflexivity].
  apply Nat.leb_le in E. lia.
Qed.

Lemma casefold_latin1_ascii (s : string) :
  is_ascii s = true -> casefold_latin1 s = ascii_lower s.
Proof.
  induction s as [|c s IH]; simpl; [reflexivity|].
  intros H. apply andb_true_iff in H. destruct H as [Hc Hs].
  rewrite (ascii_not_lead c Hc), IH by exact Hs. reflexivity.
Qed.

Lemma casefold_latin1_cons (c : ascii) (s : string) :
  is_lead2 c = false ->
  casefold_latin1 (String c s) = String (lower_byte c) (casefold_latin1 s).
Proof. intros H. simpl. rewrite H. reflexivity. Qed.

Lemma fold_pair_stable (c d : ascii) (t : string) :
  is_lead2 c = true ->
  casefold_latin1 (fold_pair c d ++ t) = fold_pair c d ++ casefold_latin1 t.
Proof.
  intros Hlead. unfold fold_pair.
  destruct (c =? "195")%char eqn:E195.
  - apply Ascii.eqb_eq in E195. subst c.
    destruct d as [[] [] [] [] [] [] [] []]; reflexivity.
  - destruct ((c =? "194")%char && (nat_of_ascii d =? 181)%nat) eqn:E194.
    + reflexivity.
    + simpl. rewrite Hlead. unfold fold_pair. rewrite E195, E194.
      reflexivity.
Qed.

Lemma casefold_latin1_idem (s : string) :
  casefold_latin1 (casefold_latin1 s) = casefold_latin1 s.
Proof.
  assert (H : forall n s, (String.length s <= n)%nat ->
                          casefold_latin1 (casefold_latin1 s)
                          = casefold_latin1 s).
  { clear s. induction n as [|n IH]; intros [|c rest] Hlen;
      try reflexivity; simpl in Hlen; [lia|].
    destruct (is_lead2 c) eqn:Hlead.
    - destruct rest as [|d rest'].
      + simpl. rewrite Hlead. simpl. rewrite Hlead. reflexivity.
      + simpl in Hlen.
        replace (casefold_latin1 (String c (String d rest')))
          with (fold_pair c d ++ casefold_latin1 rest')
          by (simpl; rewrite Hlead; reflexivity).
        rewrite fold_pair_stable by exact Hlead.
        rewrite IH by lia. reflexivity.
    - rewrite casefold_latin1_cons by exact Hlead.
      rewrite casefold_latin1_cons by (apply lower_byte_not_lead; exact Hlead).
      rewrite lower_byte_idem, IH by lia. reflexivity. }
  apply (H (String.length s)). lia.
Qed.

(** ** [json.loads] after [json.dumps], on ASCII strings *)

Lemma append_assoc (a b c : string) : (a ++ b) ++ c = a ++ (b ++ c).
Proof. induction a as [|x a IH]; simpl; [|rewrite IH]; reflexivity. Qed.

Lemma length_append (a b : string) :
  String.length (a ++ b) = (String.length a + String.length b)%nat.
Proof. induction a as [|x a IH]; simpl; [|rewrite IH]; reflexivity. Qed.

Lemma json_escape_cons (c : ascii) (s : string) :
  (nat_of_ascii c <? 128)%nat = true ->
  json_escape (String c s)
  = escape_code_point (N_of_ascii c) ++ json_escape s.
Proof.
  destruct c as [[] [] [] [] [] [] [] []]; intros H;
    try discriminate H; reflexivity.
Qed.

Lemma escape_code_point_length (c : ascii) :
  (nat_of_ascii c <? 128)%nat = true ->
  (1 <= String.length (escape_code_point (N_of_ascii c)))%nat.
Proof.
  destruct c as [[] [] [] [] [] [] [] []]; intros H;
    try discriminate H; vm_compute; lia.
Qed.

Lemma read_body_escaped (c : ascii) (fuel : nat) (t : string) :
  (nat_of_ascii c <? 128)%nat = true ->
  read_body (S fuel) (escape_code_point (N_of_ascii c) ++ t)
  = prepend (String c EmptyString) (read_body fuel t).
Proof.
  destruct c as [[] [] [] [] [] [] [] []]; intros H;
    try discriminate H; reflexivity.
Qed.

Lemma json_escape_length (s rest : string) :
  is_ascii s = true ->
  (String.length s
   < String.length (json_escape s ++ String dquote rest))%nat.
Proof.
  induction s as [|c s IH]; intros H.
  - simpl. lia.
  - simpl in H. apply andb_prop in H. destruct H as [Hc Hs].
    rewrite (json_escape_cons _ _ Hc), append_assoc, length_append.
    pose proof (escape_code_point_length _ Hc).
    specialize (IH Hs). simpl String.length at 1. lia.
Qed.

Lemma read_body_escape (s rest : string) (fuel : nat) :
  is_ascii s = true ->
  (String.length s < fuel)%nat ->
  read_body fuel (json_escape s ++ String dquote rest) = Some (s, rest).
Proof.
  revert fuel. induction s as [|c s IH]; intros fuel H Hf;
    (destruct fuel as [|fuel]; [simpl in Hf; lia|]).
  - reflexivity.
  - simpl in H. apply andb_prop in H. destruct H as [Hc Hs].
    rewrite (json_escape_cons _ _ Hc), append_assoc.
    rewrite (read_body_escaped _ _ _ Hc).
    rewrite IH; [reflexivity | exact Hs | simpl in Hf; lia].
Qed.

Lemma json_string_append (s rest : string) :
  json_string s ++ rest
  = String dquote (json_escape s ++ String dquote rest).
Proof.
  unfold json_string. simpl. rewrite append_assoc. reflexivity.
Qed.

Lemma read_string_json (s rest : string) :
  is_ascii s = true ->
  read_string (json_string s ++ rest) = Some (s, rest).
Proof.
  intros H. rewrite json_string_append.
  change (read_string (String dquote ?x))
    with (read_body (String.length x) x).
  apply read_body_escape; [exact H|].
  apply json_escape_length. exact H.
Qed.

Lemma read_value_string (fuel : nat) (s rest : string) :
  is_ascii s = true ->
  read_value (S fuel) (json_string s ++ rest) = Some (JString s, rest).
Proof.
  intros H. rewrite json_string_append.
  match goal with
  | |- read_value _ (String _ ?x) = _ =>
      change (match read_body (String.length x) x with
              | Some (v, rest') => Some (JString v, rest')
              | None => None
              end = Some (JString s, rest))
  end.
  rewrite read_body_escape;
    [reflexivity | exact H | apply json_escape_length; exact H].
Qed.

Lemma read_member_json (vfuel fuel : nat) (k v : string) (c : ascii)
  (tail : string) (acc : Dict.t json) :
  is_ascii k = true -> is_ascii v = true -> is_ws c = false ->
  read_members (read_value (S vfuel)) (S fuel)
    (json_member (k, v) ++ String c tail) acc
  = if (c =? "}")%char then Some (Dict.set k (JString v) acc, tail)
    else if (c =? ",")%char
         then read_members (read_value (S vfuel)) fuel (skip_ws tail)
                (Dict.set k (JString v) acc)
         else None.
Proof.
  intros Hk Hv Hc.
  unfold json_member. cbn [fst snd]. rewrite !append_assoc.
  cbn [read_members]. rewrite (read_string_json _ _ Hk).
  change (": " ++ ?x) with (String ":" (String " " x)).
  cbv iota beta.
  change (skip_ws (String ":" ?x)) with (String ":" x).
  cbv iota beta.
  change (":" =? ":")%char with true. cbv iota.
  change (skip_ws (String " " ?x)) with (skip_ws x).
  rewrite json_string_append.
  change (skip_ws (String dquote ?x)) with (String dquote x).
  rewrite <- json_string_append.
  rewrite (read_value_string _ _ _ Hv).
  cbv iota beta.
  change (skip_ws (String c tail))
    with (if is_ws c then skip_ws tail else String c tail).
  rewrite Hc. reflexivity.
Qed.

Lemma json_members_head (kv : string * string) (d : Dict.t string)
  (rest : string) :
  exists t, json_members (kv :: d) ++ rest = String dquote t.
Proof.
  destruct d as [|kv' d].
  - change (json_members [kv])
      with (json_string (fst kv) ++ ": " ++ json_string (snd kv)).
    rewrite append_assoc, json_string_append. eauto.
  - change (json_members (kv :: kv' :: d))
      with ((json_string (fst kv) ++ ": " ++ json_string (snd kv))
            ++ ", " ++ json_members (kv' :: d)).
    rewrite !append_assoc, json_string_append. eauto.
Qed.

Lemma of_items_distinct {V : Type} (d acc : Dict.t V) :
  NoDup (Dict.keys (acc ++ d)%list) ->
  fold_left (fun m kv => Dict.set (fst kv) (snd kv) m) d acc
  = (acc ++ d)%list.
Proof.
  revert acc. induction d as [|[k v] d IH]; intros acc Hnd; simpl.
  - rewrite app_nil_r. reflexivity.
  - assert (Hfresh : Dict.get k acc = None).
    { apply dict_get_none_keys. unfold Dict.keys in *.
      rewrite map_app in Hnd. simpl in Hnd.
      apply NoDup_remove_2 in Hnd. rewrite in_app_iff in Hnd.
      intros Hin. apply Hnd. left. exact Hin. }
    rewrite (dict_set_fresh _ _ _ _ Hfresh), IH;
      rewrite <- app_assoc; [reflexivity | exact Hnd].
Qed.

Lemma members_length (d : Dict.t string) (kv : string * string)
  (rest : string) :
  (List.length d < String.length (json_members (kv :: d) ++ rest))%nat.
Proof.
  revert kv. induction d as [|kv' d IH]; intros kv.
  - destruct (json_members_head kv [] rest) as [t ->]. simpl. lia.
  - change (json_members (kv :: kv' :: d))
      with (json_member kv ++ ", " ++ json_members (kv' :: d)).
    rewrite !append_assoc, length_append.
    change (", " ++ ?x) with (String "," (String " " x)).
    change (String.length (String "," (String " " ?x)))
      with (S (S (String.length x))).
    specialize (IH kv'). simpl List.length. lia.
Qed.

Lemma read_members_json (d : Dict.t string) :
  forall (kv : string * string) (vfuel fuel : nat) (acc : Dict.t json)
         (rest : string),
    forallb (fun p => is_ascii (fst p) && is_ascii (snd p)) (kv :: d)
    = true ->
    (List.length d < fuel)%nat ->
    read_members (read_value (S vfuel)) fuel
      (json_members (kv :: d) ++ String "}" rest) acc
    = Some (fold_left
              (fun m p => Dict.set (fst p) (snd p) m)
              (map (fun p => (fst p, JString (snd p))) (kv :: d)) acc,
            rest).
Proof.
  induction d as [|kv' d IH]; intros [k v] vfuel fuel acc rest Ha Hf;
    (destruct fuel as [|fuel]; [simpl in Hf; lia|]);
    simpl in Ha; apply andb_prop in Ha; destruct Ha as [Hkv Hrest];
    apply andb_prop in Hkv; destruct Hkv as [Hk Hv].
  - change (json_members [(k, v)]) with (json_member (k, v)).
    rewrite (read_member_json vfuel fuel k v "}" rest acc Hk Hv eq_refl).
    reflexivity.
  - change (json_members ((k, v) :: kv' :: d))
      with (json_member (k, v) ++ ", " ++ json_members (kv' :: d)).
    rewrite !append_assoc.
    change (", " ++ ?x) with (String "," (String " " x)).
    rewrite (read_member_json vfuel fuel k v "," _ acc Hk Hv eq_refl).
    change ("," =? "}")%char with false.
    change ("," =? ",")%char with true. cbv iota.
    change (skip_ws (String " " ?x)) with (skip_ws x).
    destruct (json_members_head kv' d (String "}" rest)) as [t Ht].
    rewrite Ht.
    change (skip_ws (String dquote t)) with (String dquote t).
    rewrite <- Ht.
    rewrite IH; [reflexivity | exact Hrest | simpl in Hf; lia].
Qed.

(** On the reference runtime [json.loads] gives back, as an object of
    strings, every dictionary of ASCII strings that [json.dumps] was
    given. *)
Lemma json_decode_encode (d : Dict.t string) :
  NoDup (Dict.keys d) ->
  forallb (fun p => is_ascii (fst p) && is_ascii (snd p)) d = true ->
  json_decode (json_encode d) = Some (json_of_aliases d).
Proof.
  intros Hnd Ha. destruct d as [|kv d]; [reflexivity|].
  unfold json_encode, json_decode.
  change ("{" ++ ?x) with (String "{" x).
  change (skip_ws (String "{" ?x)) with (String "{" x).
  destruct (json_members_head kv d "}") as [t Ht].
  match goal with
  | |- context [read_value (S ?n) (String "{" ?x)] =>
      change (read_value (S n) (String "{" x))
        with (match skip_ws x with
              | EmptyString => None
              | String c1 rest =>
                  if (c1 =? "}")%char then Some (JObject [], rest)
                  else
                    match read_members (read_value n)
                            (String.length (skip_ws x)) (skip_ws x) []
                    with
                    | Some (members, rest') =>
                        Some (JObject members, rest')
                    | None => None
                    end
              end)
  end.
  rewrite Ht.
  change (skip_ws (String dquote t)) with (String dquote t).
  cbv iota beta. change (dquote =? "}")%char with false. cbv iota.
  rewrite <- Ht.
  change (String.length (String "{" ?x)) with (S (String.length x)).
  rewrite read_members_json.
  - rewrite of_items_distinct.
    + reflexivity.
    + change ([] ++ ?x)%list with x. unfold Dict.keys in *.
      rewrite map_map. exact Hnd.
  - exact Ha.
  - apply members_length.
Qed.


(** * The properties on the reference runtime *)

(** C1 at the alias [Straße] looked up as [STRASSE]: the two fold to
    [strasse], which lowering alone does not give. *)
Lemma canonical_after_add_alias_witness :
  fst (add_alias (python := latin1) "Straße" "street" false
         {| _aliases := []; _frozen := false |}) = Ok tt
  /\ casefold (Runtime := latin1) "STRASSE"
     = casefold (Runtime := latin1) "Straße"
  /\ ascii_lower "STRASSE" <> ascii_lower "Straße"
  /\ canonical (python := latin1)
       (snd (add_alias (python := latin1) "Straße" "street" false
               {| _aliases := []; _frozen := false |})) "STRASSE"
     = "street"
  /\ canonical (python := latin1)
       (snd (add_alias (python := latin1) "Straße" "street" false
               {| _aliases := []; _frozen := false |})) "Straße"
     = "street".
Proof.
  split; [reflexivity|]. split; [reflexivity|]. split; [discriminate|].
  apply (canonical_after_add_alias (python := latin1)
           "Straße" "street" false _ "STRASSE"); reflexivity.
Defined.

(** C7 from the empty manager. *)
Lemma add_alias_conflict_witness :
  add_alias (python := latin1) "qty" "count" false
    {| _aliases := [("qty", "quantity")]; _frozen := false |}
  = (Raise (ConflictError "qty" "quantity"),
     {| _aliases := [("qty", "quantity")]; _frozen := false |})
  /\ canonical (python := latin1)
       (snd (add_alias (python := latin1) "qty" "count" true
               {| _aliases := [("qty", "quantity")]; _frozen := false |}))
       "QTY"
     = "count".
Proof.
  destruct (add_alias_conflict (python := latin1) casefold_latin1_ascii)
    as [H _].
  destruct (H {| _aliases := []; _frozen := false |} false eq_refl)
    as [H1 [_ [_ H4]]].
  split; [exact H1 | exact H4].
Defined.

(** C8 on the labels [Qty], 42. *)
Lemma resolve_labels_witness :
  resolve (python := latin1)
    {| _aliases := [("qty", "quantity")]; _frozen := false |}
    (Some [Str "Qty"; Int 42])
  = Some [Str "quantity"; Int 42].
Proof.
  destruct (resolve_labels (python := latin1) casefold_latin1_ascii
              {| _aliases := []; _frozen := false |}) as [_ [_ H]].
  exact (H false eq_refl).
Defined.

(** C3 on a table of one row. *)
Lemma rename_restore_round_trip_witness :
  exists self renamed restored,
    __init__ (python := latin1)
      (Some [("qty", "quantity"); ("amt", "amount")]) false = Ok self
    /\ to_canonical (python := latin1) self
         {| columns := [Str "qty"; Str "amt"];
            cells := [[3; 5]]%Z; attrs := [] |} false false true
       = Ok (renamed,
             {| columns := [Str "qty"; Str "amt"];
                cells := [[3; 5]]%Z; attrs := [] |})
    /\ columns renamed = [Str "quantity"; Str "amount"]
    /\ Dict.get "alias_map" (attrs renamed)
       = Some (RenameRecord [("qty", "quantity"); ("amt", "amount")])
    /\ cells renamed = [[3; 5]]%Z
    /\ restore_aliases self renamed false true = Ok (restored, renamed)
    /\ columns restored = [Str "qty"; Str "amt"]
    /\ cells restored = [[3; 5]]%Z.
Proof.
  exact (rename_restore_round_trip (python := latin1) casefold_latin1_ascii
           [[3; 5]]%Z [] false false false true).
Defined.

(** C2's input on the reference runtime. *)
Lemma to_canonical_flags_own_column_witness :
  exists self,
    __init__ (python := latin1) (Some [("quantity", "Quantity")]) false
    = Ok self
    /\ build_rename_map (python := latin1) self [Str "quantity"] []
       = Ok [("quantity", "Quantity")]
    /\ ~ spec_collision (python := latin1) [Str "quantity"]
           "quantity" "Quantity"
    /\ to_canonical (python := latin1) self
         {| columns := [Str "quantity"]; cells := []; attrs := [] |}
         false false true
       = Raise (CollisionError ["quantity"])
    /\ exists kept,
         to_canonical (python := latin1) self
           {| columns := [Str "quantity"]; cells := []; attrs := [] |}
           false true false
         = Ok (kept,
               {| columns := [Str "quantity"]; cells := []; attrs := [] |})
         /\ columns kept = [Str "quantity"].
Proof.
  exact (to_canonical_flags_own_column (python := latin1)
           casefold_latin1_ascii [] [] false true).
Defined.

(** C10 on a table that carries the record of an earlier call: [qty]
    was renamed to [quantity] and remembered; a manager that has
    [quantity] for [amount] now renames without remembering, and the
    record on the result is still [{qty: quantity}]. *)
Lemma to_canonical_without_remember_witness :
  to_canonical (python := latin1)
    {| _aliases := [("quantity", "amount")]; _frozen := false |}
    {| columns := [Str "quantity"]; cells := [[7]]%Z;
       attrs := [("alias_map", RenameRecord [("qty", "quantity")])] |}
    false false false
  = Ok ({| columns := [Str "amount"]; cells := [[7]]%Z;
           attrs := [("alias_map", RenameRecord [("qty", "quantity")])] |},
        {| columns := [Str "quantity"]; cells := [[7]]%Z;
           attrs := [("alias_map", RenameRecord [("qty", "quantity")])] |})
  /\ Dict.get "alias_map"
       (attrs {| columns := [Str "amount"]; cells := [[7]]%Z;
                 attrs := [("alias_map",
                            RenameRecord [("qty", "quantity")])] |})
     = Dict.get "alias_map" [("alias_map", RenameRecord [("qty", "quantity")])].
Proof.
  split; [reflexivity|].
  refine (proj1 (proj2
    (to_canonical_without_remember (python := latin1)
       {| _aliases := [("quantity", "amount")]; _frozen := false |}
       {| columns := [Str "quantity"]; cells := [[7]]%Z;
          attrs := [("alias_map", RenameRecord [("qty", "quantity")])] |}
       false false _ _ _))).
  reflexivity.
Defined.

(** C9 on a manager built by two calls. *)
Lemma aliases_shape_kept_witness :
  constructible (python := latin1)
    {| _aliases := [("strasse", "Main Street"); ("qty", "Quantity")];
       _frozen := false |}
  /\ _normalize (python := latin1) "strasse" = "strasse"
  /\ exists a, "strasse" = _normalize (python := latin1) a.
Proof.
  assert (Hc : constructible (python := latin1)
                 {| _aliases := [("strasse", "Main Street");
                                 ("qty", "Quantity")];
                    _frozen := false |}).
  { exact (called (python := latin1) (AddAlias "Qty" "Quantity" false) _
             (called (python := latin1)
                (AddAlias "Straße" "Main Street" false) _
                (constructed (python := latin1) None false _ eq_refl))). }
  split; [exact Hc|].
  destruct (aliases_shape_kept (python := latin1)
              casefold_latin1_ascii casefold_latin1_idem)
    as [_ [_ [_ [_ [H _]]]]].
  apply (H _ "strasse" "Main Street" Hc). left. reflexivity.
Defined.

(** C5 on a frozen manager with two aliases, one of them for a name
    that [json.dumps] writes with an escape. *)
Lemma json_round_trip_witness :
  constructible (python := latin1)
    {| _aliases := [("strasse", "Hauptstraße"); ("qty", "Quantity")];
       _frozen := true |}
  /\ json_decode
       (json_encode [("strasse", "Hauptstraße"); ("qty", "Quantity")])
     = Some (json_of_aliases
               [("strasse", "Hauptstraße"); ("qty", "Quantity")])
  /\ exists loaded,
       from_json (python := latin1)
         (to_json (python := latin1)
            {| _aliases := [("strasse", "Hauptstraße");
                            ("qty", "Quantity")];
               _frozen := true |})
       = Some (Ok loaded)
       /\ _aliases loaded
          = [("strasse", "Hauptstraße"); ("qty", "Quantity")]
       /\ _frozen loaded = false
       /\ (forall name,
              canonical (python := latin1) loaded name
              = canonical (python := latin1)
                  {| _aliases := [("strasse", "Hauptstraße");
                                  ("qty", "Quantity")];
                     _frozen := true |} name)
       /\ (forall alias,
              __contains__ (python := latin1) loaded alias
              = __contains__ (python := latin1)
                  {| _aliases := [("strasse", "Hauptstraße");
                                  ("qty", "Quantity")];
                     _frozen := true |} alias).
Proof.
  assert (Hc : constructible (python := latin1)
                 {| _aliases := [("strasse", "Hauptstraße");
                                 ("qty", "Quantity")];
                    _frozen := true |}).
  { exact (called (python := latin1) Freeze _
             (called (python := latin1) (AddAlias "Qty" "Quantity" false) _
                (called (python := latin1)
                   (AddAlias "Straße" "Hauptstraße" false) _
                   (constructed (python := latin1) None false _
                      eq_refl)))). }
  assert (Hjson : json_decode
                    (json_encode [("strasse", "Hauptstraße");
                                  ("qty", "Quantity")])
                  = Some (json_of_aliases
                            [("strasse", "Hauptstraße");
                             ("qty", "Quantity")])).
  { vm_compute. reflexivity. }
  split; [exact Hc|]. split; [exact Hjson|].
  exact (json_round_trip (python := latin1) casefold_latin1_idem
           _ Hc Hjson).
Defined.

(** * Where the specification says more than the code does *)

(** C6 as stated fails: on a frozen manager [add_aliases] of an empty
    mapping, and [add_alias_groups] of groups that name no alias, return
    and raise nothing. *)
Lemma frozen_batch_of_nothing_returns :
  _frozen (snd (freeze {| _aliases := []; _frozen := false |})) = true
  /\ add_aliases (python := latin1) [] false
       (snd (freeze {| _aliases := []; _frozen := false |}))
     = (Ok tt, {| _aliases := []; _frozen := true |})
  /\ add_alias_groups (python := latin1) [("quantity", [])] true
       (snd (freeze {| _aliases := []; _frozen := false |}))
     = (Ok tt, {| _aliases := []; _frozen := true |})
  /\ ~ (forall (op : mutation) (self : ColumnAliasManager),
           op <> Freeze ->
           fst (call (python := latin1) op (snd (freeze self)))
           = Raise FrozenError).
Proof.
  repeat split.
  intros H.
  specialize (H (AddAliases [] false) {| _aliases := []; _frozen := false |}).
  simpl in H. discriminate H. discriminate.
Qed.

(** C5 as stated fails: an alias made of the two surrogate code points
    U+D83D and U+DE00 is registered as it is, [json.dumps] writes it as
    two escapes, and [json.loads] reads the two escapes as the one code
    point U+1F600; the manager loaded knows that alias and no longer the
    one that was registered, which it returns as it is. *)
Lemma json_merges_surrogate_pair :
  constructible (python := latin1)
    {| _aliases := [(surrogate_pair, "x")]; _frozen := false |}
  /\ canonical (python := latin1)
       {| _aliases := [(surrogate_pair, "x")]; _frozen := false |}
       surrogate_pair
     = "x"
  /\ from_json (python := latin1)
       (to_json (python := latin1)
          {| _aliases := [(surrogate_pair, "x")]; _frozen := false |})
     = Some (Ok {| _aliases := [(astral, "x")]; _frozen := false |})
  /\ canonical (python := latin1)
       {| _aliases := [(astral, "x")]; _frozen := false |} surrogate_pair
     = surrogate_pair
  /\ ~ (forall self : ColumnAliasManager,
          constructible (python := latin1) self ->
          exists loaded,
            from_json (python := latin1) (to_json (python := latin1) self)
            = Some (Ok loaded)
            /\ forall alias,
                 __contains__ (python := latin1) self alias = true ->
                 canonical (python := latin1) loaded alias
                 = canonical (python := latin1) self alias).
Proof.
  assert (Hc : constructible (python := latin1)
                 {| _aliases := [(surrogate_pair, "x")];
                    _frozen := false |}).
  { exact (called (python := latin1)
             (AddAlias surrogate_pair "x" false) _
             (constructed (python := latin1) None false _ eq_refl)). }
  assert (Hload : from_json (python := latin1)
                    (to_json (python := latin1)
                       {| _aliases := [(surrogate_pair, "x")];
                          _frozen := false |})
                  = Some (Ok {| _aliases := [(astral, "x")];
                                _frozen := false |})).
  { vm_compute. reflexivity. }
  split; [exact Hc|]. split; [reflexivity|]. split; [exact Hload|].
  split; [reflexivity|].
  intros H. destruct (H _ Hc) as [loaded [Hl Hcan]].
  rewrite Hload in Hl. injection Hl as <-.
  specialize (Hcan surrogate_pair eq_refl).
  vm_compute in Hcan. discriminate Hcan.
Qed.

(** * The scenarios of the specification on the reference runtime *)

(** A name never registered passes through [canonical]. *)
Example canonical_pass_through :
  canonical (python := latin1)
    {| _aliases := [("qty", "quantity")]; _frozen := false |} "Price"
  = "Price".
Proof. reflexivity. Qed.

(** Columns [qty], [quantity] with [qty] registered for [quantity]:
    renaming would overwrite the second column, so [to_canonical]
    raises, and with [drop_conflicts] returns the columns as they are and
    remembers an empty record. *)
Example collision_scenario :
  to_canonical (python := latin1)
    {| _aliases := [("qty", "quantity")]; _frozen := false |}
    {| columns := [Str "qty"; Str "quantity"]; cells := []; attrs := [] |}
    false false true
  = Raise (CollisionError ["qty"])
  /\ to_canonical (python := latin1)
       {| _aliases := [("qty", "quantity")]; _frozen := false |}
       {| columns := [Str "qty"; Str "quantity"]; cells := [];
          attrs := [] |}
       false true true
     = Ok ({| columns := [Str "qty"; Str "quantity"]; cells := [];
              attrs := [("alias_map", RenameRecord [])] |},
           {| columns := [Str "qty"; Str "quantity"]; cells := [];
              attrs := [] |}).
Proof. split; reflexivity. Qed.

(** A label that is no string stops [to_canonical]. *)
Example to_canonical_non_string_label :
  to_canonical (python := latin1)
    {| _aliases := [("qty", "quantity")]; _frozen := false |}
    {| columns := [Str "qty"; Int 0]; cells := []; attrs := [] |}
    false false true
  = Raise AttributeError.
Proof. reflexivity. Qed.

(** Without a record [restore_aliases] raises when strict and returns
    the table otherwise. *)
Example restore_without_record :
  restore_aliases {| _aliases := []; _frozen := false |}
    {| columns := [Str "quantity"]; cells := []; attrs := [] |} false true
  = Raise MissingRecordError
  /\ restore_aliases {| _aliases := []; _frozen := false |}
       {| columns := [Str "quantity"]; cells := []; attrs := [] |}
       false false
     = Ok ({| columns := [Str "quantity"]; cells := []; attrs := [] |},
           {| columns := [Str "quantity"]; cells := []; attrs := [] |}).
Proof. split; reflexivity. Qed.

(** On a table whose labels are those of a [MultiIndex],
    [restore_aliases] renames the values of the levels. *)
Example restore_on_multi_index :
  restore_aliases {| _aliases := []; _frozen := false |}
    {| columns := [Tuple [LStr "quantity"; LStr "2024"];
                   Tuple [LStr "price"; LInt 1]];
       cells := [];
       attrs := [("alias_map", RenameRecord [("qty", "quantity")])] |}
    true true
  = Ok ({| columns := [Tuple [LStr "qty"; LStr "2024"];
                       Tuple [LStr "price"; LInt 1]];
           cells := [];
           attrs := [("alias_map", RenameRecord [("qty", "quantity")])] |},
        {| columns := [Tuple [LStr "qty"; LStr "2024"];
                       Tuple [LStr "price"; LInt 1]];
           cells := [];
           attrs := [("alias_map", RenameRecord [("qty", "quantity")])] |}).
Proof. reflexivity. Qed.

(** What [from_json] makes of texts that hold no object of strings. *)
Example from_json_of_other_values :
  from_json (python := latin1) "[]"
  = Some (Ok {| _aliases := []; _frozen := false |})
  /\ from_json (python := latin1) "0"
     = Some (Ok {| _aliases := []; _frozen := false |})
  /\ from_json (python := latin1) "false"
     = Some (Ok {| _aliases := []; _frozen := false |})
  /\ from_json (python := latin1) (json_string EmptyString)
     = Some (Ok {| _aliases := []; _frozen := false |})
  /\ from_json (python := latin1) " {} "
     = Some (Ok {| _aliases := []; _frozen := false |})
  /\ from_json (python := latin1) "true" = Some (Raise AttributeError)
  /\ from_json (python := latin1) "[1, 2]" = Some (Raise AttributeError)
  /\ from_json (python := latin1) "1e5" = Some (Raise AttributeError)
  /\ from_json (python := latin1) "{" = Some (Raise JSONDecodeError)
  /\ from_json (python := latin1) EmptyString
     = Some (Raise JSONDecodeError).
Proof. repeat split; reflexivity. Qed.

(** The text [to_json] writes on the reference runtime, and its
    reading. *)
Example to_json_text :
  json_decode
    (to_json (python := latin1)
       {| _aliases := [("qty", "quantity"); ("amt", "amount")];
          _frozen := false |})
  = Some (JObject [("qty", JString "quantity");
                   ("amt", JString "amount")])
  /\ String.length
       (to_json (python := latin1)
          {| _aliases := [("qty", "quantity"); ("amt", "amount")];
             _frozen := false |})
     = 36.
Proof. split; reflexivity. Qed.

(** * Further properties of the manager *)

Section Further.
Set Default Proof Using "Type".

Context {python : Runtime}.

(** ** Dictionaries: removal *)

Lemma dict_get_pop_other (V : Type) (k k' : string) (d : Dict.t V) :
  k <> k' -> Dict.get k' (Dict.pop k d) = Dict.get k' d.
Proof.
  intros Hne. induction d as [|[k0 v0] d IH]; simpl; [reflexivity|].
  destruct (k0 =? k) eqn:E; simpl.
  - apply String.eqb_eq in E. subst k0.
    destruct (k =? k') eqn:E'; [|reflexivity].
    apply String.eqb_eq in E'. contradiction.
  - rewrite IH. reflexivity.
Qed.

Lemma dict_get_pop_same (V : Type) (k : string) (d : Dict.t V) :
  NoDup (Dict.keys d) -> Dict.get k (Dict.pop k d) = None.
Proof.
  induction d as [|[k0 v0] d IH]; simpl; [reflexivity|].
  intros Hnd. inversion Hnd; subst.
  destruct (k0 =? k) eqn:E; simpl.
  - apply String.eqb_eq in E. subst k0.
    apply dict_get_none_keys. assumption.
  - rewrite E. apply IH. assumption.
Qed.

Lemma dict_pop_absent (V : Type) (k : string) (d : Dict.t V) :
  Dict.get k d = None -> Dict.pop k d = d.
Proof.
  induction d as [|[k0 v0] d IH]; simpl; [reflexivity|].
  destruct (k0 =? k); [discriminate|].
  intros H. rewrite IH by exact H. reflexivity.
Qed.

Lemma remove_alias_unfrozen (a : string) (self : ColumnAliasManager) :
  _frozen self = false ->
  remove_alias a self
  = (Ok tt, {| _aliases := Dict.pop (casefold a) (_aliases self);
               _frozen := false |}).
Proof.
  destruct self as [d f]. simpl. intros ->. reflexivity.
Qed.

(** ** Removing an alias *)

(** X1. On an unfrozen manager [remove_alias] returns; afterwards no casing
    of the alias is registered and each passes through [canonical],
    every other name resolves as before, and removing an alias that was
    not registered leaves the manager as it was. *)
Theorem remove_alias_forgets (a : string) (self : ColumnAliasManager) :
  constructible self ->
  _frozen self = false ->
  fst (remove_alias a self) = Ok tt
  /\ (forall a',
         casefold a' = casefold a ->
         __contains__ (snd (remove_alias a self)) a' = false
         /\ canonical (snd (remove_alias a self)) a' = a')
  /\ (forall b,
         casefold b <> casefold a ->
         __contains__ (snd (remove_alias a self)) b = __contains__ self b
         /\ canonical (snd (remove_alias a self)) b = canonical self b)
  /\ (__contains__ self a = false -> snd (remove_alias a self) = self).
Proof.
  intros Hc Hfz. pose proof (constructible_nodup _ Hc) as Hnd.
  rewrite remove_alias_unfrozen by exact Hfz.
  unfold __contains__, canonical, Dict.mem, _normalize. simpl.
  split; [reflexivity|]. split; [|split].
  - intros a' ->. rewrite dict_get_pop_same by exact Hnd. auto.
  - intros b Hb. rewrite dict_get_pop_other by congruence. auto.
  - destruct (Dict.get (casefold a) (_aliases self)) eqn:E; [discriminate|].
    intros _. rewrite dict_pop_absent by exact E.
    destruct self as [d f]. simpl in *. subst f. reflexivity.
Qed.

(** ** Adding an alias *)

(** X2. A call of [add_alias] that returns changes nothing for the names
    that fold to another key; without [overwrite] it changes nothing for
    any registered name at all, so a registered alias keeps its
    canonical name until it is overwritten or removed. *)
Theorem add_alias_keeps_others (a c : string) (ov : bool)
  (self : ColumnAliasManager) :
  fst (add_alias a c ov self) = Ok tt ->
  (forall b,
      casefold b <> casefold a ->
      __contains__ (snd (add_alias a c ov self)) b = __contains__ self b
      /\ canonical (snd (add_alias a c ov self)) b = canonical self b)
  /\ (forall b,
         __contains__ self b = true ->
         __contains__ (snd (add_alias a c ov self)) b = true)
  /\ (ov = false ->
      forall b,
        __contains__ self b = true ->
        canonical (snd (add_alias a c ov self)) b = canonical self b).
Proof.
  intros Hok. destruct (add_alias_ok _ _ _ _ Hok) as [Hfz Hsnd].
  assert (Hother : forall b,
             casefold b <> casefold a ->
             Dict.get (casefold b) (_aliases (snd (add_alias a c ov self)))
             = Dict.get (casefold b) (_aliases self)).
  { intros b Hb. rewrite Hsnd. simpl.
    apply dict_get_set_other. congruence. }
  assert (Hsame : forall b,
             casefold b = casefold a ->
             Dict.get (casefold b) (_aliases (snd (add_alias a c ov self)))
             = Some c).
  { intros b ->. rewrite Hsnd. simpl. apply dict_get_set_same. }
  unfold __contains__, canonical, Dict.mem, _normalize.
  split; [|split].
  - intros b Hb. rewrite (Hother b Hb). auto.
  - intros b Hin.
    destruct (string_dec (casefold b) (casefold a)) as [E | E].
    + rewrite (Hsame b E). reflexivity.
    + rewrite (Hother b E). exact Hin.
  - intros -> b Hin.
    destruct (string_dec (casefold b) (casefold a)) as [E | E].
    + rewrite (Hsame b E), E. clear Hother Hsame.
      rewrite add_alias_unfrozen in Hok by exact Hfz. simpl in Hok.
      rewrite E in Hin.
      destruct (Dict.get (casefold a) (_aliases self)) as [x|];
        [|discriminate].
      destruct (x =? c) eqn:Ex; [|discriminate].
      apply String.eqb_eq in Ex. congruence.
    + rewrite (Hother b E). reflexivity.
Qed.
Lemma add_alias_raise_unchanged (a c : string) (ov : bool)
  (self : ColumnAliasManager) (e : error) :
  fst (add_alias a c ov self) = Raise e ->
  snd (add_alias a c ov self) = self.
Proof.
  destruct self as [d [|]].
  - rewrite add_alias_frozen by reflexivity. reflexivity.
  - rewrite add_alias_unfrozen by reflexivity. simpl.
    destruct (Dict.get (casefold a) d) as [x|];
      [destruct (negb ov && negb (x =? c))|]; simpl;
      intros H; (discriminate || reflexivity).
Qed.

Lemma add_alias_get_same (a c : string) (ov : bool)
  (self : ColumnAliasManager) :
  fst (add_alias a c ov self) = Ok tt ->
  Dict.get (casefold a) (_aliases (snd (add_alias a c ov self))) = Some c.
Proof.
  intros Hok. destruct (add_alias_ok _ _ _ _ Hok) as [_ ->]. simpl.
  apply dict_get_set_same.
Qed.

Lemma add_alias_get_kept (a c : string) (self : ColumnAliasManager)
  (k v : string) :
  fst (add_alias a c false self) = Ok tt ->
  Dict.get k (_aliases self) = Some v ->
  Dict.get k (_aliases (snd (add_alias a c false self))) = Some v.
Proof.
  intros Hok Hk. destruct (add_alias_ok _ _ _ _ Hok) as [Hfz Hsnd].
  rewrite Hsnd. simpl.
  destruct (string_dec (casefold a) k) as [E | E].
  - subst k. rewrite dict_get_set_same.
    rewrite add_alias_unfrozen in Hok by exact Hfz. simpl in Hok.
    rewrite Hk in Hok. destruct (v =? c) eqn:Ev; [|discriminate].
    apply String.eqb_eq in Ev. congruence.
  - rewrite dict_get_set_other by exact E. exact Hk.
Qed.

(** ** Loops *)

Lemma for_each_cons_fst (A : Type) (body : A -> M unit) (x : A)
  (xs : list A) (self : ColumnAliasManager) :
  fst (for_each body (x :: xs) self)
  = match fst (body x self) with
    | Ok _ => fst (for_each body xs (snd (body x self)))
    | Raise e => Raise e
    end.
Proof.
  simpl. unfold bind. destruct (body x self) as [[u|e] self']; reflexivity.
Qed.

Lemma for_each_app (A : Type) (body : A -> M unit) (xs ys : list A)
  (self : ColumnAliasManager) :
  for_each body (xs ++ ys)%list self
  = bind (for_each body xs) (fun _ => for_each body ys) self.
Proof.
  revert self. induction xs as [|x xs IH]; intros self; simpl.
  - reflexivity.
  - unfold bind. destruct (body x self) as [[u|e] self'].
    + rewrite IH. reflexivity.
    + reflexivity.
Qed.

Lemma for_each_map (A B : Type) (body : B -> M unit) (h : A -> B)
  (xs : list A) (self : ColumnAliasManager) :
  for_each body (map h xs) self = for_each (fun x => body (h x)) xs self.
Proof.
  revert self. induction xs as [|x xs IH]; intros self; simpl.
  - reflexivity.
  - unfold bind. destruct (body (h x) self) as [[u|e] self']; auto.
Qed.

Lemma for_each_raise (A : Type) (body : A -> M unit)
  (Q : ColumnAliasManager -> Prop) (xs : list A) (e : error) :
  (forall x s, Q s -> Q (snd (body x s))) ->
  forall self,
    Q self ->
    fst (for_each body xs self) = Raise e ->
    exists x s, In x xs /\ Q s /\ fst (body x s) = Raise e.
Proof.
  intros Hkeep. induction xs as [|x xs IH]; intros self HQ.
  - discriminate.
  - rewrite for_each_cons_fst.
    destruct (fst (body x self)) as [u|e'] eqn:E.
    + intros H. destruct (IH _ (Hkeep x self HQ) H) as [y [s [Hy Hs]]].
      exists y, s. simpl. auto.
    + intros H. inversion H; subst e'. exists x, self. simpl. auto.
Qed.

Lemma add_alias_groups_flat (groups : list (string * list string))
  (ov : bool) (self : ColumnAliasManager) :
  add_alias_groups groups ov self
  = add_aliases (supplied (AddAliasGroups groups ov)) ov self.
Proof.
  unfold add_alias_groups, add_aliases. simpl supplied.
  revert self. induction groups as [|[c names] groups IH]; intros self.
  - reflexivity.
  - simpl flat_map. rewrite for_each_app. simpl for_each at 1.
    unfold bind. rewrite for_each_map. simpl.
    destruct (for_each (fun alias => add_alias alias c ov) names self)
      as [[u|e] self']; [apply IH | reflexivity].
Qed.

(** ** Batches *)

(** X3. [add_aliases] on a mapping in two parts is [add_aliases] on the
    first part and then, if that returned, on the second; and
    [add_alias_groups] is [add_aliases] on the pairs of the groups, group
    after group. *)
Theorem batches_compose :
  (forall m1 m2 ov self,
      add_aliases (m1 ++ m2)%list ov self
      = bind (add_aliases m1 ov) (fun _ => add_aliases m2 ov) self)
  /\ (forall groups ov self,
         add_alias_groups groups ov self
         = add_aliases
             (flat_map (fun g => map (fun a => (a, fst g)) (snd g)) groups)
             ov self)
  /\ (forall g1 g2 ov self,
         add_alias_groups (g1 ++ g2)%list ov self
         = bind (add_alias_groups g1 ov)
             (fun _ => add_alias_groups g2 ov) self).
Proof.
  split; [|split].
  - intros. apply for_each_app.
  - intros. apply add_alias_groups_flat.
  - intros. apply for_each_app.
Qed.

(** X4. A batch stops at the first pair [add_alias] refuses and does not
    roll back: the error is that of the pair, and the manager is as the
    pairs before it left it. *)
Theorem add_aliases_stops_without_rollback
  (m1 m2 : list (string * string)) (a c : string) (ov : bool)
  (self self1 : ColumnAliasManager) (e : error) :
  add_aliases m1 ov self = (Ok tt, self1) ->
  fst (add_alias a c ov self1) = Raise e ->
  add_aliases (m1 ++ (a, c) :: m2)%list ov self = (Raise e, self1).
Proof.
  intros H1 He. unfold add_aliases in *. rewrite for_each_app.
  unfold bind at 1. rewrite H1. simpl. unfold bind.
  pose proof (add_alias_raise_unchanged _ _ _ _ _ He) as Hs.
  destruct (add_alias a c ov self1) as [[u|e'] s']; simpl in *;
    [discriminate|].
  congruence.
Qed.

Lemma add_aliases_get_kept (m : list (string * string))
  (self : ColumnAliasManager) (k v : string) :
  fst (add_aliases m false self) = Ok tt ->
  Dict.get k (_aliases self) = Some v ->
  Dict.get k (_aliases (snd (add_aliases m false self))) = Some v.
Proof.
  unfold add_aliases. revert self.
  induction m as [|[a c] m IH]; intros self Hok Hk; [exact Hk|].
  rewrite for_each_cons_fst in Hok. rewrite for_each_cons. simpl in *.
  destruct (fst (add_alias a c false self)) as [[]|e] eqn:E;
    [|discriminate].
  apply IH; [exact Hok|]. apply add_alias_get_kept; assumption.
Qed.

Lemma add_aliases_resolve (m : list (string * string))
  (self : ColumnAliasManager) (a c : string) :
  fst (add_aliases m false self) = Ok tt ->
  In (a, c) m ->
  Dict.get (casefold a) (_aliases (snd (add_aliases m false self)))
  = Some c.
Proof.
  unfold add_aliases. revert self.
  induction m as [|[a0 c0] m IH]; intros self Hok Hin; [destruct Hin|].
  rewrite for_each_cons_fst in Hok. rewrite for_each_cons. simpl in *.
  destruct (fst (add_alias a0 c0 false self)) as [[]|e] eqn:E;
    [|discriminate].
  destruct Hin as [Heq | Hin].
  - inversion Heq; subst a0 c0.
    apply (add_aliases_get_kept m); [exact Hok|].
    apply add_alias_get_same. exact E.
  - apply IH; assumption.
Qed.

(** X5. After a batch without [overwrite] that returned, every pair of the
    batch resolves: [canonical a] is [c] for each pair [(a, c)], also
    where several pairs fold to one key; the names registered before
    resolve as before.  The same holds for the mapping given to the
    constructor and for the aliases of each group. *)
Theorem batch_pairs_resolve :
  (forall m self a c,
      fst (add_aliases m false self) = Ok tt ->
      In (a, c) m ->
      canonical (snd (add_aliases m false self)) a = c)
  /\ (forall m self b,
         fst (add_aliases m false self) = Ok tt ->
         __contains__ self b = true ->
         canonical (snd (add_aliases m false self)) b = canonical self b)
  /\ (forall m frozen self a c,
         __init__ (Some m) frozen = Ok self ->
         In (a, c) m ->
         canonical self a = c)
  /\ (forall groups self c names a,
         fst (add_alias_groups groups false self) = Ok tt ->
         In (c, names) groups ->
         In a names ->
         canonical (snd (add_alias_groups groups false self)) a = c).
Proof.
  assert (H1 : forall m self a c,
             fst (add_aliases m false self) = Ok tt ->
             In (a, c) m ->
             canonical (snd (add_aliases m false self)) a = c).
  { intros m self a c Hok Hin. unfold canonical, _normalize.
    rewrite (add_aliases_resolve m self a c Hok Hin). reflexivity. }
  split; [exact H1|]. split; [|split].
  - intros m self b Hok. unfold __contains__, canonical, Dict.mem, _normalize.
    destruct (Dict.get (casefold b) (_aliases self)) as [v|] eqn:E;
      [|discriminate].
    intros _. rewrite (add_aliases_get_kept m self _ v Hok E). reflexivity.
  - intros m frozen self a c Hinit Hin. unfold __init__ in Hinit.
    destruct m as [|p m]; [destruct Hin|].
    destruct (add_aliases (p :: m) false
                {| _aliases := []; _frozen := frozen |})
      as [[[]|e] self'] eqn:E; inversion Hinit; subst self'.
    replace self
      with (snd (add_aliases (p :: m) false
                   {| _aliases := []; _frozen := frozen |}))
      by (rewrite E; reflexivity).
    apply H1; [rewrite E; reflexivity | exact Hin].
  - intros groups self c names a Hok Hg Ha.
    rewrite add_alias_groups_flat in *. apply H1; [exact Hok|].
    simpl. apply in_flat_map. exists (c, names). split; [exact Hg|].
    simpl. apply in_map_iff. exists a. auto.
Qed.

(** ** The frozen flag and the errors of the mutators *)

Lemma add_alias_flag (a c : string) (ov : bool)
  (self : ColumnAliasManager) :
  _frozen (snd (add_alias a c ov self)) = _frozen self.
Proof.
  destruct self as [d [|]].
  - rewrite add_alias_frozen by reflexivity. reflexivity.
  - rewrite add_alias_unfrozen by reflexivity. simpl.
    destruct (Dict.get (casefold a) d) as [x|];
      [destruct (negb ov && negb (x =? c))|]; reflexivity.
Qed.

Lemma call_flag (op : mutation) (self : ColumnAliasManager) :
  _frozen (snd (call op self))
  = match op with Freeze => true | _ => _frozen self end.
Proof.
  destruct op as [a c ov | m ov | g ov | a | |]; simpl.
  - apply add_alias_flag.
  - unfold add_aliases.
    apply (for_each_keeps _ _ (fun s => _frozen s = _frozen self));
      [|reflexivity].
    intros x s Hs. rewrite add_alias_flag. exact Hs.
  - rewrite add_alias_groups_flat. unfold add_aliases.
    apply (for_each_keeps _ _ (fun s => _frozen s = _frozen self));
      [|reflexivity].
    intros x s Hs. rewrite add_alias_flag. exact Hs.
  - destruct self as [d [|]]; reflexivity.
  - destruct self as [d [|]]; reflexivity.
  - reflexivity.
Qed.

Lemma add_alias_error (a c : string) (ov : bool)
  (self : ColumnAliasManager) (e : error) :
  fst (add_alias a c ov self) = Raise e ->
  (e = FrozenError /\ _frozen self = true)
  \/ (_frozen self = false /\ ov = false
      /\ exists x, e = ConflictError a x /\ x <> c
                   /\ Dict.get (casefold a) (_aliases self) = Some x).
Proof.
  destruct self as [d [|]].
  - rewrite add_alias_frozen by reflexivity. simpl.
    intros H. inversion H. auto.
  - rewrite add_alias_unfrozen by reflexivity. simpl.
    destruct (Dict.get (casefold a) d) as [x|]; [|discriminate].
    destruct ov; simpl; [discriminate|].
    destruct (x =? c) eqn:E; simpl; [discriminate|].
    apply String.eqb_neq in E. intros H. inversion H. right. eauto 8.
Qed.

Lemma add_aliases_error (m : list (string * string)) (ov : bool)
  (self : ColumnAliasManager) (e : error) :
  fst (add_aliases m ov self) = Raise e ->
  (e = FrozenError /\ _frozen self = true)
  \/ (_frozen self = false /\ ov = false
      /\ exists a c x, In (a, c) m /\ e = ConflictError a x /\ x <> c).
Proof.
  unfold add_aliases. intros H.
  apply (for_each_raise _ _ (fun s => _frozen s = _frozen self)) in H.
  - destruct H as [[a c] [s [Hin [Hs He]]]]. simpl in He.
    apply add_alias_error in He. rewrite Hs in He.
    destruct He as [He | [Hf [Hov [x [He [Hx _]]]]]]; [left; exact He|].
    right. split; [exact Hf|]. split; [exact Hov|]. eauto 8.
  - intros x s Hs. rewrite add_alias_flag. exact Hs.
  - reflexivity.
Qed.

(** X6. A mutator raises for one of two reasons only: FrozenError, and then
    the manager is frozen; or ConflictError, and then the manager is not
    frozen, the call is an addition without [overwrite], and the alias
    named is one it was given, already registered for another canonical
    name.  So on an unfrozen manager [remove_alias], [clear] and every
    addition with [overwrite] return, and [freeze] always returns. *)
Theorem mutator_errors (op : mutation) (self : ColumnAliasManager)
  (e : error) :
  fst (call op self) = Raise e ->
  (e = FrozenError /\ _frozen self = true)
  \/ (_frozen self = false
      /\ match op with
         | AddAlias _ _ ov | AddAliases _ ov | AddAliasGroups _ ov =>
             ov = false
         | _ => False
         end
      /\ exists a c x,
           In (a, c) (supplied op) /\ e = ConflictError a x /\ x <> c).
Proof.
  destruct op as [a c ov | m ov | g ov | a | |]; simpl.
  - intros H. apply add_alias_error in H.
    destruct H as [H | [Hf [Hov [x [He [Hx _]]]]]]; [left; exact H|].
    right. split; [exact Hf|]. split; [exact Hov|].
    exists a, c, x. simpl. auto.
  - apply add_aliases_error.
  - rewrite add_alias_groups_flat. apply add_aliases_error.
  - destruct self as [d [|]]; simpl; intros H; inversion H. auto.
  - destruct self as [d [|]]; simpl; intros H; inversion H. auto.
  - discriminate.
Qed.

(** X7. A frozen manager stays as it is through any calls, returned or
    raised; and the flag of a manager changes only by [freeze]. *)
Theorem frozen_is_final (ops : list mutation) (self : ColumnAliasManager) :
  (_frozen self = true ->
   fold_left (fun s op => snd (call op s)) ops self = self)
  /\ (~ In Freeze ops ->
      _frozen (fold_left (fun s op => snd (call op s)) ops self)
      = _frozen self).
Proof.
  split.
  - revert self. induction ops as [|op ops IH]; intros self Hfz; simpl;
      [reflexivity|].
    assert (Hsame : snd (call op self) = self).
    { destruct op as [a c ov | m ov | g ov | a | |]; simpl.
      - rewrite add_alias_frozen by exact Hfz. reflexivity.
      - unfold add_aliases. rewrite for_each_frozen; [reflexivity|].
        intros x. apply add_alias_frozen. exact Hfz.
      - rewrite add_alias_groups_frozen by exact Hfz. reflexivity.
      - rewrite remove_alias_frozen by exact Hfz. reflexivity.
      - rewrite clear_frozen by exact Hfz. reflexivity.
      - destruct self as [d f]. simpl in *. subst f. reflexivity. }
    rewrite Hsame. apply IH. exact Hfz.
  - revert self. induction ops as [|op ops IH]; intros self Hno; simpl;
      [reflexivity|].
    rewrite IH by (intros H; apply Hno; right; exact H).
    rewrite call_flag. destruct op; try reflexivity.
    exfalso. apply Hno. left. reflexivity.
Qed.

(** ** Names never registered *)

Lemma run_stored (ops : list mutation) (h : list (string * string))
  (self : ColumnAliasManager) :
  stored_as_supplied h self ->
  stored_as_supplied (flat_map supplied ops ++ h)%list
    (fold_left (fun s op => snd (call op s)) ops self).
Proof.
  revert h self. induction ops as [|op ops IH]; intros h self H; simpl.
  - exact H.
  - apply (stored_mono (flat_map supplied ops ++ (supplied op ++ h))%list).
    + intros p Hp. rewrite !in_app_iff in Hp. rewrite !in_app_iff.
      destruct Hp as [Hp | [Hp | Hp]]; auto.
    + apply IH. apply call_stored. exact H.
Qed.

(** X8. The pass-through law.  Take a manager built by the constructor and
    changed by any calls: a name whose case folding is that of no alias
    ever handed to the constructor or to an addition is not contained,
    and [canonical] returns it as it is. *)
Theorem never_registered_passes_through
  (mapping : option (list (string * string))) (frozen : bool)
  (ops : list mutation) (self0 : ColumnAliasManager) (name : string) :
  __init__ mapping frozen = Ok self0 ->
  (forall a c,
      In (a, c)
        (flat_map supplied ops
         ++ match mapping with Some m => m | None => [] end)%list ->
      casefold a <> casefold name) ->
  let self := fold_left (fun s op => snd (call op s)) ops self0 in
  __contains__ self name = false /\ canonical self name = name.
Proof.
  intros Hinit Hnew self.
  pose proof (run_stored ops _ _ (init_stored _ _ _ Hinit)) as Hst.
  fold self in Hst.
  unfold __contains__, canonical, Dict.mem, _normalize.
  destruct (Dict.get (casefold name) (_aliases self)) as [v|] eqn:E;
    [|auto].
  exfalso. apply dict_get_in in E.
  destruct (Hst _ _ E) as [a [Ha Hk]].
  apply (Hnew a v Ha). symmetry. exact Hk.
Qed.

(** ** Loading *)


(** ** Aliases of a canonical name *)

Lemma aliases_for_in (self : ColumnAliasManager) (k c : string) :
  In k (aliases_for self c) <-> In (k, c) (_aliases self).
Proof.
  unfold aliases_for. rewrite in_map_iff. split.
  - intros [[k' c'] [Hk Hin]]. simpl in Hk. subst k'.
    apply filter_In in Hin. destruct Hin as [Hin Hc]. simpl in Hc.
    apply String.eqb_eq in Hc. subst c'. exact Hin.
  - intros Hin. exists (k, c). split; [reflexivity|].
    apply filter_In. split; [exact Hin|]. simpl. apply String.eqb_refl.
Qed.

Lemma nodup_keys_filter (V : Type) (f : string * V -> bool)
  (d : Dict.t V) :
  NoDup (Dict.keys d) -> NoDup (Dict.keys (filter f d)).
Proof.
  unfold Dict.keys. induction d as [|kv d IH]; simpl; [auto|].
  intros Hnd. inversion Hnd; subst.
  destruct (f kv); simpl; auto.
  constructor; auto.
  intros Hin. apply H1. apply in_map_iff in Hin.
  destruct Hin as [kv' [Hk Hin]]. apply filter_In in Hin.
  rewrite <- Hk. apply in_map. tauto.
Qed.

(** Folding a folded string changes nothing. *)
Hypothesis casefold_idem : forall s, casefold (casefold s) = casefold s.

(** X10. [aliases_for] is the inverse of [canonical] on the stored keys: for
    a manager a program can hold, [k] is listed for [c] exactly when [k]
    is a folded name that is contained and resolves to [c]; the folding
    of every contained name is listed for the name it resolves to; and no
    key is listed twice. *)
Theorem aliases_for_inverts_canonical (self : ColumnAliasManager) :
  constructible self ->
  (forall k c,
      In k (aliases_for self c)
      <-> casefold k = k
          /\ __contains__ self k = true
          /\ canonical self k = c)
  /\ (forall a,
         __contains__ self a = true ->
         In (casefold a) (aliases_for self (canonical self a)))
  /\ (forall c, NoDup (aliases_for self c)).
Proof using casefold_idem.
  intros Hc. pose proof (constructible_nodup _ Hc) as Hnd.
  destruct (constructible_stored _ Hc) as [h Hst].
  split; [|split].
  - intros k c. rewrite aliases_for_in.
    unfold __contains__, canonical, Dict.mem, _normalize. split.
    + intros Hin.
      assert (Hk : casefold k = k).
      { destruct (Hst _ _ Hin) as [a [_ ->]]. apply casefold_idem. }
      rewrite Hk, (dict_in_get _ _ _ _ Hnd Hin). auto.
    + intros [Hk [Hin Hcan]]. rewrite Hk in *.
      destruct (Dict.get k (_aliases self)) as [v|] eqn:E;
        [|discriminate].
      subst v. apply dict_get_in. exact E.
  - intros a. rewrite aliases_for_in.
    unfold __contains__, canonical, Dict.mem, _normalize.
    destruct (Dict.get (casefold a) (_aliases self)) as [v|] eqn:E;
      [|discriminate].
    intros _. apply dict_get_in. exact E.
  - intros c. unfold aliases_for. apply nodup_keys_filter. exact Hnd.
Qed.

(** ** The rename map of a table *)

Lemma build_rename_map_ok (self : ColumnAliasManager) (cols : list label)
  (acc : Dict.t string) :
  (forall l, In l cols -> exists s, l = Str s) ->
  exists rename_map, build_rename_map self cols acc = Ok rename_map.
Proof.
  revert acc. induction cols as [|l cols IH]; intros acc Hall; simpl.
  - eauto.
  - destruct (Hall l (or_introl eq_refl)) as [s ->].
    destruct (Dict.get (_normalize s) (_aliases self));
      apply IH; intros l' Hl'; apply Hall; right; exact Hl'.
Qed.

Lemma build_rename_map_strs (self : ColumnAliasManager) (cols : list label)
  (acc rename_map : Dict.t string) :
  build_rename_map self cols acc = Ok rename_map ->
  forall l, In l cols -> exists s, l = Str s.
Proof.
  revert acc. induction cols as [|l cols IH]; intros acc H l' Hl'.
  - destruct Hl'.
  - simpl in H. destruct l as [s | z | items]; try discriminate.
    destruct Hl' as [<- | Hl']; [eauto|].
    destruct (Dict.get (_normalize s) (_aliases self));
      eapply IH; eassumption.
Qed.

Lemma build_rename_map_nodup (self : ColumnAliasManager)
  (cols : list label) (acc rename_map : Dict.t string) :
  build_rename_map self cols acc = Ok rename_map ->
  NoDup (Dict.keys acc) -> NoDup (Dict.keys rename_map).
Proof.
  revert acc. induction cols as [|l cols IH]; intros acc H Hnd; simpl in H.
  - inversion H. subst. exact Hnd.
  - destruct l as [s | z | items]; try discriminate.
    destruct (Dict.get (_normalize s) (_aliases self)).
    + apply (IH _ H). apply dict_nodup_set. exact Hnd.
    + apply (IH _ H). exact Hnd.
Qed.

Lemma label_eq_dec (a b : label) : {a = b} + {a <> b}.
Proof.
  decide equality.
  - apply string_dec.
  - apply Z.eq_dec.
  - apply list_eq_dec. decide equality; [apply string_dec | apply Z.eq_dec].
Qed.

(** [to_canonical] renames a flat index only: on a label that is no
    string it has stopped before. *)
Lemma build_rename_map_flat (self : ColumnAliasManager)
  (cols : list label) (acc rename_map : Dict.t string) :
  build_rename_map self cols acc = Ok rename_map ->
  multi_index cols = false.
Proof.
  destruct cols as [|[s | z | items] cols]; simpl; intros H;
    try reflexivity.
  discriminate H.
Qed.

Lemma rename_flat (mapper : Dict.t string) (df : DataFrame) :
  multi_index (columns df) = false ->
  columns (rename mapper df) = map (rename_label mapper) (columns df).
Proof. intros H. unfold rename. simpl. rewrite H. reflexivity. Qed.

(** Renaming the labels of a flat index leaves it flat. *)
Lemma multi_index_rename_label (mapper : Dict.t string)
  (cols : list label) :
  multi_index (map (rename_label mapper) cols) = multi_index cols.
Proof.
  destruct cols as [|[s | z | first] rest]; simpl; try reflexivity.
  - destruct (Dict.get s mapper); reflexivity.
  - induction rest as [|l rest IH]; simpl; [reflexivity|].
    rewrite IH. destruct l as [s | z | items]; simpl; try reflexivity.
    destruct (Dict.get s mapper); reflexivity.
Qed.

Lemma build_rename_map_get (self : ColumnAliasManager) (cols : list label)
  (acc rename_map : Dict.t string) (x : string) :
  build_rename_map self cols acc = Ok rename_map ->
  (In (Str x) cols ->
   Dict.get x rename_map
   = match Dict.get (_normalize x) (_aliases self) with
     | Some c => Some c
     | None => Dict.get x acc
     end)
  /\ (~ In (Str x) cols -> Dict.get x rename_map = Dict.get x acc).
Proof.
  revert acc. induction cols as [|l cols IH]; intros acc H; simpl in H.
  - inversion H. subst. split; [intros [] | reflexivity].
  - destruct l as [s | z | items]; try discriminate.
    destruct (string_dec s x) as [-> | Hsx].
    + (* this column is [x] *)
      assert (Hhere : Dict.get x rename_map
                      = match Dict.get (_normalize x) (_aliases self) with
                        | Some c => Some c
                        | None => Dict.get x acc
                        end).
      { destruct (Dict.get (_normalize x) (_aliases self)) as [c|] eqn:E.
        - destruct (IH _ H) as [Hin Hout].
          destruct (in_dec label_eq_dec (Str x) cols) as [Hx | Hx].
          + exact (Hin Hx).
          + rewrite (Hout Hx). apply dict_get_set_same.
        - destruct (IH _ H) as [Hin Hout].
          destruct (in_dec label_eq_dec (Str x) cols) as [Hx | Hx].
          + exact (Hin Hx).
          + exact (Hout Hx). }
      split; [intros _; exact Hhere|].
      intros Hn. exfalso. apply Hn. left. reflexivity.
    + (* another column *)
      assert (Hacc : forall acc',
                 Dict.get x acc' = Dict.get x acc ->
                 build_rename_map self cols acc' = Ok rename_map ->
                 (In (Str x) (Str s :: cols) ->
                  Dict.get x rename_map
                  = match Dict.get (_normalize x) (_aliases self) with
                    | Some c => Some c
                    | None => Dict.get x acc
                    end)
                 /\ (~ In (Str x) (Str s :: cols) ->
                     Dict.get x rename_map = Dict.get x acc)).
      { intros acc' Hsame H'. destruct (IH _ H') as [Hin Hout].
        rewrite Hsame in Hin, Hout. split.
        - intros [Heq | Hx]; [congruence | exact (Hin Hx)].
        - intros Hn. apply Hout. intros Hx. apply Hn. right. exact Hx. }
      destruct (Dict.get (_normalize s) (_aliases self)) as [c|].
      * apply (Hacc _ (dict_get_set_other _ _ _ _ _ Hsx) H).
      * apply (Hacc _ eq_refl H).
Qed.

Lemma rename_map_entries (self : ColumnAliasManager) (cols : list label)
  (rename_map : Dict.t string) (a c : string) :
  build_rename_map self cols [] = Ok rename_map ->
  In (a, c) rename_map ->
  In (Str a) cols /\ Dict.get (_normalize a) (_aliases self) = Some c.
Proof.
  intros H Hin.
  pose proof (build_rename_map_nodup _ _ _ _ H (NoDup_nil _)) as Hnd.
  pose proof (dict_in_get _ _ _ _ Hnd Hin) as Hget.
  destruct (build_rename_map_get _ _ _ _ a H) as [Hyes Hno].
  destruct (in_dec label_eq_dec (Str a) cols) as [Hx | Hx].
  - split; [exact Hx|]. rewrite (Hyes Hx) in Hget.
    destruct (Dict.get (_normalize a) (_aliases self)); simpl in Hget;
      [exact Hget | discriminate].
  - rewrite (Hno Hx) in Hget. discriminate.
Qed.

Lemma rename_label_is_canonical (self : ColumnAliasManager)
  (cols : list label) (rename_map : Dict.t string) (l : label) :
  build_rename_map self cols [] = Ok rename_map ->
  In l cols ->
  rename_label rename_map l
  = match l with Str s => Str (canonical self s) | _ => l end.
Proof.
  intros H Hl. destruct l as [s | z | items]; try reflexivity.
  destruct (build_rename_map_get _ _ _ _ s H) as [Hyes _].
  unfold rename_label, canonical. rewrite (Hyes Hl).
  destruct (Dict.get (_normalize s) (_aliases self)); reflexivity.
Qed.

(** ** Pruning *)

Lemma prune_in (V : Type) (l : list string) (d : Dict.t V)
  (kv : string * V) :
  In kv (fold_left (fun m a => Dict.pop a m) l d) -> In kv d.
Proof.
  revert d. induction l as [|a l IH]; intros d; simpl; [auto|].
  intros H. apply IH in H. apply dict_in_pop in H. exact H.
Qed.

Lemma prune_nodup (V : Type) (l : list string) (d : Dict.t V) :
  NoDup (Dict.keys d) ->
  NoDup (Dict.keys (fold_left (fun m a => Dict.pop a m) l d)).
Proof.
  revert d. induction l as [|a l IH]; intros d Hnd; simpl; [exact Hnd|].
  apply IH. apply dict_nodup_pop. exact Hnd.
Qed.

Lemma prune_get (V : Type) (l : list string) (d : Dict.t V) (k : string) :
  NoDup (Dict.keys d) ->
  Dict.get k (fold_left (fun m a => Dict.pop a m) l d)
  = if existsb (String.eqb k) l then None else Dict.get k d.
Proof.
  revert d. induction l as [|a l IH]; intros d Hnd; simpl; [reflexivity|].
  rewrite IH by (apply dict_nodup_pop; exact Hnd).
  destruct (k =? a) eqn:E; simpl.
  - apply String.eqb_eq in E. subst a.
    rewrite dict_get_pop_same by exact Hnd.
    destruct (existsb (String.eqb k) l); reflexivity.
  - apply String.eqb_neq in E.
    rewrite dict_get_pop_other by congruence. reflexivity.
Qed.

(** ** What [to_canonical] raises *)

Lemma build_rename_map_non_string (self : ColumnAliasManager)
  (cols : list label) (acc : Dict.t string) (l : label) :
  In l cols -> (forall s, l <> Str s) ->
  build_rename_map self cols acc = Raise AttributeError.
Proof.
  intros Hl Hns.
  destruct (build_rename_map self cols acc) as [rename_map|e] eqn:E.
  - destruct (build_rename_map_strs _ _ _ _ E l Hl) as [s Hs].
    destruct (Hns s Hs).
  - rewrite (build_rename_map_raises _ _ _ _ E). reflexivity.
Qed.

Lemma build_rename_map_culprit (self : ColumnAliasManager)
  (cols : list label) (acc : Dict.t string) (e : error) :
  build_rename_map self cols acc = Raise e ->
  exists l, In l cols /\ forall s, l <> Str s.
Proof.
  revert acc. induction cols as [|l cols IH]; intros acc; simpl.
  - discriminate.
  - destruct l as [s | z | items].
    + destruct (Dict.get (_normalize s) (_aliases self)); intros H;
        destruct (IH _ H) as [l [Hl Hn]]; exists l; auto.
    + intros _. exists (Int z). split; [auto | discriminate].
    + intros _. exists (Tuple items). split; [auto | discriminate].
Qed.

(** X11. [to_canonical] raises AttributeError exactly when some column label
    is no string, whatever the flags; any other error is CollisionError,
    with at least one alias and only without [drop_conflicts]; so on a
    table of string labels [to_canonical] with [drop_conflicts] always
    returns. *)
Theorem to_canonical_errors (self : ColumnAliasManager) (df : DataFrame)
  (inplace drop_conflicts remember : bool) :
  (to_canonical self df inplace drop_conflicts remember
   = Raise AttributeError
   <-> exists l, In l (columns df) /\ forall s, l <> Str s)
  /\ (forall e,
         to_canonical self df inplace drop_conflicts remember = Raise e ->
         e = AttributeError
         \/ (drop_conflicts = false
             /\ exists reported,
                  reported <> [] /\ e = CollisionError reported))
  /\ ((forall l, In l (columns df) -> exists s, l = Str s) ->
      drop_conflicts = true ->
      exists target df',
        to_canonical self df inplace drop_conflicts remember
        = Ok (target, df')).
Proof.
  destruct (build_rename_map self (columns df) []) as [rename_map|e0] eqn:E.
  - rewrite (to_canonical_unfold _ _ _ _ _ _ E).
    pose proof (build_rename_map_strs _ _ _ _ E) as Hstr.
    split; [|split].
    + split.
      * destruct (collisions_of (columns df) rename_map);
          [|destruct drop_conflicts]; discriminate.
      * intros [l [Hl Hns]]. destruct (Hstr l Hl) as [s Hs].
        destruct (Hns s Hs).
    + intros e.
      destruct (collisions_of (columns df) rename_map) as [|a r];
        [discriminate|].
      destruct drop_conflicts; [discriminate|].
      intros H. inversion H. right. split; [reflexivity|].
      eexists. split; [|reflexivity]. discriminate.
    + intros _ ->.
      destruct (collisions_of (columns df) rename_map); eauto.
  - pose proof (build_rename_map_raises _ _ _ _ E) as ->.
    unfold to_canonical. rewrite E. split; [|split].
    + split; [|reflexivity]. intros _.
      destruct (build_rename_map_culprit _ _ _ _ E) as [l [Hl Hn]].
      exists l. split; [exact Hl | exact Hn].
    + intros e H. inversion H. auto.
    + intros Hall _. destruct (build_rename_map_ok self _ [] Hall) as [m Hm].
      congruence.
Qed.

(** ** What [to_canonical] returns *)

Lemma to_canonical_ok_inv (self : ColumnAliasManager) (df : DataFrame)
  (inplace drop_conflicts remember : bool) (target df' : DataFrame) :
  to_canonical self df inplace drop_conflicts remember = Ok (target, df') ->
  exists built applied,
    build_rename_map self (columns df) [] = Ok built
    /\ applied
       = (if drop_conflicts
          then fold_left (fun m a => Dict.pop a m)
                 (collisions_of (columns df) built) built
          else built)
    /\ (drop_conflicts = false -> collisions_of (columns df) built = [])
    /\ target
       = (if remember
          then set_attr _ATTR_KEY (RenameRecord applied) (rename applied df)
          else rename applied df)
    /\ df' = (if inplace then target else df).
Proof.
  intros H.
  destruct (build_rename_map self (columns df) []) as [built|e] eqn:E;
    [|unfold to_canonical in H; rewrite E in H; discriminate].
  rewrite (to_canonical_unfold _ _ _ _ _ _ E) in H.
  exists built. eexists. split; [reflexivity|]. split; [reflexivity|].
  destruct (collisions_of (columns df) built) as [|a r] eqn:Ec.
  - simpl in H. inversion H; subst.
    destruct drop_conflicts; simpl; repeat split; reflexivity.
  - destruct drop_conflicts; [|discriminate].
    simpl in H. inversion H; subst.
    split; [discriminate|]. split; reflexivity.
Qed.

Lemma applied_entries (self : ColumnAliasManager) (cols : list label)
  (drop_conflicts : bool) (built : Dict.t string) :
  build_rename_map self cols [] = Ok built ->
  (drop_conflicts = false -> collisions_of cols built = []) ->
  let applied :=
    if drop_conflicts
    then fold_left (fun m a => Dict.pop a m) (collisions_of cols built) built
    else built in
  NoDup (Dict.keys applied)
  /\ (forall a c, In (a, c) applied -> In (a, c) built)
  /\ (forall a c,
         In (a, c) applied -> ~ In a (collisions_of cols built)).
Proof.
  intros Hb Hnone applied.
  pose proof (build_rename_map_nodup _ _ _ _ Hb (NoDup_nil _)) as Hnd.
  subst applied. destruct drop_conflicts.
  - split; [apply prune_nodup; exact Hnd|].
    split; [intros a c; apply prune_in|].
    intros a c Hin Hrep.
    apply dict_in_get in Hin; [|apply prune_nodup; exact Hnd].
    rewrite prune_get in Hin by exact Hnd.
    assert (Hex : existsb (String.eqb a) (collisions_of cols built) = true).
    { apply existsb_exists. exists a. split; [exact Hrep|].
      apply String.eqb_refl. }
    rewrite Hex in Hin. discriminate.
  - split; [exact Hnd|]. split; [auto|].
    intros a c _. rewrite (Hnone eq_refl). intros [].
Qed.

(** X12. Which aliases are reported.  When [to_canonical] raises
    CollisionError, the aliases it names are the column labels that are
    contained in the manager, differ from their canonical name, and
    whose canonical name folds like the label of some column of the
    table; each is named once. *)
Theorem to_canonical_reports (self : ColumnAliasManager) (df : DataFrame)
  (inplace remember : bool) (reported : list string) :
  to_canonical self df inplace false remember
  = Raise (CollisionError reported) ->
  reported <> []
  /\ NoDup reported
  /\ forall a,
       In a reported
       <-> In (Str a) (columns df)
           /\ __contains__ self a = true
           /\ a <> canonical self a
           /\ exists other,
                In (Str other) (columns df)
                /\ casefold other = casefold (canonical self a).
Proof.
  intros H. apply to_canonical_collision_iff in H.
  destruct H as [built [Hb [Hc Hne]]]. subst reported.
  pose proof (build_rename_map_nodup _ _ _ _ Hb (NoDup_nil _)) as Hnd.
  split; [exact Hne|]. split.
  { unfold collisions_of. apply nodup_keys_filter. exact Hnd. }
  intros a. rewrite collisions_of_spec.
  unfold __contains__, canonical, Dict.mem, _normalize. split.
  - intros [c [Hin [Hac Hother]]].
    destruct (rename_map_entries _ _ _ _ _ Hb Hin) as [Hcol Hget].
    unfold _normalize in Hget. rewrite Hget. auto.
  - intros [Hcol [Hin [Hac Hother]]].
    destruct (Dict.get (casefold a) (_aliases self)) as [c|] eqn:E;
      [|discriminate].
    exists c. split; [|auto].
    apply dict_get_in.
    destruct (build_rename_map_get _ _ _ _ a Hb) as [Hyes _].
    rewrite (Hyes Hcol). unfold _normalize. rewrite E. reflexivity.
Qed.

(** X13. Without [drop_conflicts] a table that comes back has the labels
    [resolve] gives for its columns.  With [drop_conflicts] it has them
    too, except that a label reported as a collision is kept as it
    is. *)
Theorem to_canonical_columns (self : ColumnAliasManager) (df : DataFrame)
  (inplace drop_conflicts remember : bool) (target df' : DataFrame) :
  to_canonical self df inplace drop_conflicts remember = Ok (target, df') ->
  (drop_conflicts = false ->
   resolve self (Some (columns df)) = Some (columns target))
  /\ exists built,
       build_rename_map self (columns df) [] = Ok built
       /\ columns target
          = map (fun l =>
                   match l with
                   | Str s =>
                       if existsb (String.eqb s)
                            (collisions_of (columns df) built)
                       then l
                       else Str (canonical self s)
                   | _ => l
                   end) (columns df).
Proof.
  intros H. destruct (to_canonical_ok_inv _ _ _ _ _ _ _ H)
    as [built [applied [Hb [Happ [Hnone [Ht _]]]]]].
  pose proof (build_rename_map_nodup _ _ _ _ Hb (NoDup_nil _)) as Hnd.
  assert (Hcols : columns target = map (rename_label applied) (columns df)).
  { rewrite <- (rename_flat _ _ (build_rename_map_flat _ _ _ _ Hb)).
    rewrite Ht. destruct remember; reflexivity. }
  split.
  - intros ->. subst applied. simpl. rewrite Hcols. f_equal.
    apply map_ext_in. intros l Hl. symmetry.
    apply (rename_label_is_canonical _ _ _ _ Hb Hl).
  - exists built. split; [exact Hb|]. rewrite Hcols.
    apply map_ext_in. intros l Hl.
    destruct l as [s | z | items]; try reflexivity.
    destruct drop_conflicts.
    + subst applied. unfold rename_label at 1.
      rewrite prune_get by exact Hnd.
      destruct (existsb (String.eqb s) (collisions_of (columns df) built));
        [reflexivity|].
      apply (rename_label_is_canonical _ _ _ _ Hb Hl).
    + subst applied. rewrite (Hnone eq_refl). simpl.
      apply (rename_label_is_canonical _ _ _ _ Hb Hl).
Qed.

(** ** The record that is remembered *)

(** X14. With [remember] the table that comes back carries under [alias_map]
    the map that was applied to it: its labels are the labels given,
    renamed by the record; every entry of the record is a column of the
    table given, contained in the manager, with the canonical name it
    resolves to; no alias is recorded twice.  Every other entry of
    [attrs] and the cells are those of the table given, and the table
    given is changed only when [inplace]. *)
Theorem to_canonical_remembers (self : ColumnAliasManager) (df : DataFrame)
  (inplace drop_conflicts : bool) (target df' : DataFrame) :
  to_canonical self df inplace drop_conflicts true = Ok (target, df') ->
  exists record,
    Dict.get "alias_map" (attrs target) = Some (RenameRecord record)
    /\ columns target = map (rename_label record) (columns df)
    /\ NoDup (Dict.keys record)
    /\ (forall a c,
           In (a, c) record ->
           In (Str a) (columns df)
           /\ __contains__ self a = true
           /\ canonical self a = c)
    /\ (forall k,
           k <> "alias_map" ->
           Dict.get k (attrs target) = Dict.get k (attrs df))
    /\ cells target = cells df
    /\ df' = (if inplace then target else df).
Proof.
  intros H. destruct (to_canonical_ok_inv _ _ _ _ _ _ _ H)
    as [built [applied [Hb [Happ [Hnone [Ht Hd]]]]]].
  destruct (applied_entries self _ drop_conflicts _ Hb Hnone)
    as [Hnd [Hsub _]].
  rewrite <- Happ in Hnd, Hsub.
  exists applied. subst target. simpl.
  rewrite (build_rename_map_flat _ _ _ _ Hb).
  split; [apply (dict_get_set_same _ _ATTR_KEY)|].
  split; [reflexivity|]. split; [exact Hnd|]. split; [|split; [|split]].
  - intros a c Hin.
    destruct (rename_map_entries _ _ _ _ _ Hb (Hsub _ _ Hin)) as [Hcol Hg].
    unfold __contains__, canonical, Dict.mem. rewrite Hg. auto.
  - intros k Hk. apply dict_get_set_other. unfold _ATTR_KEY. congruence.
  - reflexivity.
  - exact Hd.
Qed.

(** ** Restoring *)

Lemma restore_label (record : Dict.t string) (cols : list label)
  (l : label) :
  NoDup (Dict.keys record) ->
  NoDup (map snd record) ->
  (forall a c, In (a, c) record -> a <> c -> ~ In (Str c) cols) ->
  In l cols ->
  rename_label
    (Dict.of_items (map (fun ac => (snd ac, fst ac)) record))
    (rename_label record l)
  = l.
Proof.
  intros Hkeys Hvals Hfree Hl.
  set (swapped := map (fun ac : string * string => (snd ac, fst ac)) record).
  assert (Hswap : Dict.keys swapped = map snd record).
  { unfold swapped, Dict.keys. rewrite map_map. reflexivity. }
  assert (Hof : Dict.of_items swapped = swapped).
  { unfold Dict.of_items.
    rewrite (of_items_distinct swapped []); [reflexivity|].
    simpl. rewrite Hswap. exact Hvals. }
  rewrite Hof.
  assert (Hin : forall a c, In (c, a) swapped <-> In (a, c) record).
  { intros a c. unfold swapped. rewrite in_map_iff. split.
    - intros [[a' c'] [Heq Hin]]. simpl in Heq. inversion Heq; subst.
      exact Hin.
    - intros Hin. exists (a, c). auto. }
  destruct l as [x | z | items]; try reflexivity.
  unfold rename_label at 2.
  destruct (Dict.get x record) as [c|] eqn:E.
  - apply dict_get_in in E. unfold rename_label.
    rewrite (dict_in_get _ c x swapped); [reflexivity| |].
    + rewrite Hswap. exact Hvals.
    + apply Hin. exact E.
  - unfold rename_label.
    destruct (Dict.get x swapped) as [a|] eqn:E'; [|reflexivity].
    exfalso. apply dict_get_in, Hin in E'.
    apply (Hfree a x E'); [|exact Hl].
    intros ->. apply dict_get_none_keys in E. apply E.
    apply (in_map fst) in E'. exact E'.
Qed.

(** X15. [restore_aliases] undoes [to_canonical].  Take the table a call
    with [remember] returned: if no two of its columns were renamed to
    one canonical name, [restore_aliases] gives back the labels, the
    cells and every entry of [attrs] but the record of the table first
    given; the record stays on the restored table. *)
Theorem restore_undoes_to_canonical
  (self : ColumnAliasManager) (df : DataFrame)
  (inplace drop_conflicts inplace' strict : bool)
  (target df' : DataFrame) (record : Dict.t string) :
  to_canonical self df inplace drop_conflicts true = Ok (target, df') ->
  Dict.get "alias_map" (attrs target) = Some (RenameRecord record) ->
  NoDup (map snd record) ->
  exists restored,
    restore_aliases self target inplace' strict
    = Ok (restored, if inplace' then restored else target)
    /\ columns restored = columns df
    /\ cells restored = cells df
    /\ attrs restored = attrs target
    /\ forall k,
         k <> "alias_map" ->
         Dict.get k (attrs restored) = Dict.get k (attrs df).
Proof.
  intros H Hrec Hvals.
  destruct (to_canonical_ok_inv _ _ _ _ _ _ _ H)
    as [built [applied [Hb [Happ [Hnone [Ht _]]]]]].
  destruct (applied_entries self _ drop_conflicts _ Hb Hnone)
    as [Hnd [Hsub Hnot]].
  rewrite <- Happ in Hnd, Hsub, Hnot.
  assert (Hrecord : record = applied).
  { subst target. simpl in Hrec.
    rewrite (dict_get_set_same _ _ATTR_KEY) in Hrec. congruence. }
  subst record.
  assert (Hfree : forall a c,
             In (a, c) applied -> a <> c -> ~ In (Str c) (columns df)).
  { intros a c Hin Hac Hcol. apply (Hnot a c Hin).
    apply collisions_of_spec. exists c.
    split; [apply Hsub; exact Hin|]. split; [exact Hac|].
    exists c. auto. }
  unfold restore_aliases. fold _ATTR_KEY in Hrec.
  unfold _ATTR_KEY in *. rewrite Hrec.
  eexists. split; [reflexivity|].
  subst target. simpl. split; [|split; [|split]].
  - rewrite (build_rename_map_flat _ _ _ _ Hb).
    rewrite multi_index_rename_label.
    rewrite (build_rename_map_flat _ _ _ _ Hb).
    rewrite map_map. rewrite <- (map_id (columns df)) at 2.
    apply map_ext_in. intros l Hl.
    apply (restore_label applied (columns df)); assumption.
  - reflexivity.
  - reflexivity.
  - intros k Hk. apply dict_get_set_other. congruence.
Qed.


(** ** Registering again, renaming nothing *)

Lemma dict_set_same_value (V : Type) (k : string) (v : V) (d : Dict.t V) :
  Dict.get k d = Some v -> Dict.set k v d = d.
Proof.
  induction d as [|[k0 v0] d IH]; simpl; [discriminate|].
  destruct (k0 =? k) eqn:E.
  - intros H. inversion H. reflexivity.
  - intros H. rewrite IH by exact H. reflexivity.
Qed.

(** X17. Once [add_alias a c] has returned, registering [c] again for [a] or
    for any other casing of it, with or without [overwrite], returns and
    leaves the manager as it is. *)
Theorem add_alias_again (a c : string) (ov : bool)
  (self : ColumnAliasManager) (a' : string) (ov' : bool) :
  fst (add_alias a c ov self) = Ok tt ->
  casefold a' = casefold a ->
  add_alias a' c ov' (snd (add_alias a c ov self))
  = (Ok tt, snd (add_alias a c ov self)).
Proof.
  intros Hok Hfold. pose proof (add_alias_get_same _ _ _ _ Hok) as Hget.
  destruct (add_alias_ok _ _ _ _ Hok) as [Hfz _].
  pose proof (add_alias_flag a c ov self) as Hflag.
  destruct (snd (add_alias a c ov self)) as [d f]. simpl in *.
  rewrite Hfz in Hflag. subst f.
  rewrite add_alias_unfrozen by reflexivity. simpl.
  rewrite Hfold, Hget, String.eqb_refl, andb_false_r.
  rewrite (dict_set_same_value _ _ _ _ Hget). reflexivity.
Qed.

Lemma build_rename_map_nothing (self : ColumnAliasManager)
  (cols : list label) (acc : Dict.t string) :
  (forall l, In l cols ->
             exists s, l = Str s /\ __contains__ self s = false) ->
  build_rename_map self cols acc = Ok acc.
Proof.
  induction cols as [|l cols IH]; intros Hall; simpl; [reflexivity|].
  destruct (Hall l (or_introl eq_refl)) as [s [-> Hs]].
  unfold __contains__, Dict.mem in Hs.
  destruct (Dict.get (_normalize s) (_aliases self)); [discriminate|].
  apply IH. intros l Hl. apply Hall. right. exact Hl.
Qed.

(** X18. On a table of string labels none of which is contained in the
    manager, the empty table and the empty manager included,
    [to_canonical] returns the table with its labels as they are; with
    [remember] it stores the empty record, in the place of any record
    the table carried. *)
Theorem to_canonical_nothing_registered
  (self : ColumnAliasManager) (df : DataFrame)
  (inplace drop_conflicts remember : bool) :
  (forall l, In l (columns df) ->
             exists s, l = Str s /\ __contains__ self s = false) ->
  exists target,
    to_canonical self df inplace drop_conflicts remember
    = Ok (target, if inplace then target else df)
    /\ columns target = columns df
    /\ cells target = cells df
    /\ attrs target
       = (if remember
          then Dict.set "alias_map" (RenameRecord []) (attrs df)
          else attrs df).
Proof.
  intros Hall.
  pose proof (build_rename_map_nothing self _ [] Hall) as Hb.
  rewrite (to_canonical_unfold _ _ _ _ _ []) by exact Hb.
  simpl. eexists. split; [reflexivity|].
  assert (Hid : map (rename_label []) (columns df) = columns df).
  { rewrite <- (map_id (columns df)) at 2. apply map_ext.
    intros [s | z | items]; reflexivity. }
  destruct remember; simpl;
    rewrite (build_rename_map_flat _ _ _ _ Hb), Hid; auto.
Qed.

(** ** Item access and clearing *)

(** X19. [mgr[a] = c] is an addition without [overwrite]: when it returns,
    [mgr[a']] is [c] and [a' in mgr] holds for every casing [a'] of
    [a]; when [a] is registered for another name it raises
    ConflictError and every item reads as before. *)
Theorem item_assignment (a c : string) (self : ColumnAliasManager) :
  (fst (__setitem__ a c self) = Ok tt ->
   forall a',
     casefold a' = casefold a ->
     __getitem__ (snd (__setitem__ a c self)) a' = c
     /\ __contains__ (snd (__setitem__ a c self)) a' = true)
  /\ (forall x,
         _frozen self = false ->
         __contains__ self a = true ->
         __getitem__ self a = x ->
         x <> c ->
         __setitem__ a c self = (Raise (ConflictError a x), self)).
Proof.
  unfold __setitem__, __getitem__, __contains__, canonical, Dict.mem,
    _normalize.
  split.
  - intros Hok a' Hfold. rewrite Hfold.
    rewrite (add_alias_get_same _ _ _ _ Hok). auto.
  - intros x Hfz Hin Hget Hne.
    rewrite add_alias_unfrozen by exact Hfz. simpl.
    destruct (Dict.get (casefold a) (_aliases self)) as [v|];
      [|discriminate].
    subst v. apply String.eqb_neq in Hne. rewrite Hne. reflexivity.
Qed.

(** [clear] on an unfrozen manager returns and leaves the manager the
    constructor gives without a mapping: no name is contained, every
    name passes through [canonical], and no canonical name has an
    alias. *)
Theorem clear_forgets_all (self : ColumnAliasManager) :
  _frozen self = false ->
  fst (clear self) = Ok tt
  /\ __init__ None false = Ok (snd (clear self))
  /\ forall name,
       __contains__ (snd (clear self)) name = false
       /\ canonical (snd (clear self)) name = name
       /\ aliases_for (snd (clear self)) name = [].
Proof.
  destruct self as [d f]. simpl. intros ->.
  repeat split.
Qed.

End Further.

(** * The further properties on the reference runtime *)

Local Notation "'qty_amt'" :=
  ({| _aliases := [("qty", "quantity"); ("amt", "amount")];
      _frozen := false |}).

Local Notation "'no_aliases'" := ({| _aliases := []; _frozen := false |}).

Lemma qty_amt_constructible : constructible (python := latin1) qty_amt.
Proof.
  exact (constructed (python := latin1)
           (Some [("qty", "quantity"); ("amt", "amount")]) false _ eq_refl).
Qed.

(** Removing [QTY] from the manager of [qty] and [amt]. *)
Lemma remove_alias_forgets_witness :
  _frozen qty_amt = false
  /\ canonical (python := latin1)
       (snd (remove_alias (python := latin1) "QTY" qty_amt)) "Qty"
     = "Qty"
  /\ canonical (python := latin1)
       (snd (remove_alias (python := latin1) "QTY" qty_amt)) "amt"
     = "amount"
  /\ snd (remove_alias (python := latin1) "price" qty_amt) = qty_amt.
Proof.
  split; [reflexivity|].
  destruct (remove_alias_forgets (python := latin1) "QTY" qty_amt
              qty_amt_constructible eq_refl) as [_ [H1 [H2 _]]].
  destruct (remove_alias_forgets (python := latin1) "price" qty_amt
              qty_amt_constructible eq_refl) as [_ [_ [_ H3]]].
  split; [apply (H1 "Qty"); reflexivity|].
  split; [|apply H3; reflexivity].
  rewrite (proj2 (H2 "amt" ltac:(discriminate))). reflexivity.
Defined.

(** Adding [price] to the manager of [qty] and [amt]. *)
Lemma add_alias_keeps_others_witness :
  fst (add_alias (python := latin1) "Price" "unit_price" false qty_amt)
  = Ok tt
  /\ canonical (python := latin1)
       (snd (add_alias (python := latin1) "Price" "unit_price" false
               qty_amt)) "QTY"
     = "quantity".
Proof.
  split; [reflexivity|].
  destruct (add_alias_keeps_others (python := latin1)
              "Price" "unit_price" false qty_amt eq_refl) as [H _].
  rewrite (proj2 (H "QTY" ltac:(discriminate))). reflexivity.
Defined.

(** A batch whose second pair conflicts. *)
Lemma add_aliases_stops_without_rollback_witness :
  add_aliases (python := latin1)
    [("price", "unit_price"); ("QTY", "count"); ("tax", "vat")] false
    qty_amt
  = (Raise (ConflictError "QTY" "quantity"),
     {| _aliases := [("qty", "quantity"); ("amt", "amount");
                     ("price", "unit_price")];
        _frozen := false |}).
Proof.
  apply (add_aliases_stops_without_rollback (python := latin1)
           [("price", "unit_price")] [("tax", "vat")] "QTY" "count" false
           qty_amt); reflexivity.
Defined.

(** A batch in which two pairs fold to one key. *)
Lemma batch_pairs_resolve_witness :
  fst (add_aliases (python := latin1)
         [("Qty", "quantity"); ("QTY", "quantity"); ("amt", "amount")]
         false no_aliases) = Ok tt
  /\ canonical (python := latin1)
       (snd (add_aliases (python := latin1)
               [("Qty", "quantity"); ("QTY", "quantity");
                ("amt", "amount")] false no_aliases)) "QTY"
     = "quantity".
Proof.
  split; [reflexivity|].
  apply (proj1 (batch_pairs_resolve (python := latin1))
           [("Qty", "quantity"); ("QTY", "quantity"); ("amt", "amount")]
           no_aliases "QTY" "quantity"); [reflexivity|].
  right. left. reflexivity.
Defined.

(** A group with a conflicting alias. *)
Lemma mutator_errors_witness :
  fst (call (python := latin1)
         (AddAliasGroups [("count", ["n"; "Qty"])] false) qty_amt)
  = Raise (ConflictError "Qty" "quantity")
  /\ ((ConflictError "Qty" "quantity" = FrozenError
       /\ _frozen qty_amt = true)
      \/ (_frozen qty_amt = false
          /\ false = false
          /\ exists a c x,
               In (a, c) [("n", "count"); ("Qty", "count")]
               /\ ConflictError "Qty" "quantity" = ConflictError a x
               /\ x <> c)).
Proof.
  split; [reflexivity|].
  exact (mutator_errors (python := latin1)
           (AddAliasGroups [("count", ["n"; "Qty"])] false) qty_amt
           (ConflictError "Qty" "quantity") eq_refl).
Defined.

(** Calls on a frozen manager. *)
Lemma frozen_is_final_witness :
  fold_left (fun s op => snd (call (python := latin1) op s))
    [AddAlias "tax" "vat" true; Clear; RemoveAlias "qty"; Freeze]
    {| _aliases := [("qty", "quantity")]; _frozen := true |}
  = {| _aliases := [("qty", "quantity")]; _frozen := true |}.
Proof.
  apply (proj1 (frozen_is_final (python := latin1)
                  [AddAlias "tax" "vat" true; Clear; RemoveAlias "qty";
                   Freeze]
                  {| _aliases := [("qty", "quantity")];
                     _frozen := true |})).
  reflexivity.
Defined.

(** A name that was never given. *)
Lemma never_registered_passes_through_witness :
  __init__ (python := latin1) (Some [("qty", "quantity")]) false
  = Ok {| _aliases := [("qty", "quantity")]; _frozen := false |}
  /\ canonical (python := latin1)
       (fold_left (fun s op => snd (call (python := latin1) op s))
          [AddAlias "amt" "amount" false; RemoveAlias "qty"]
          {| _aliases := [("qty", "quantity")]; _frozen := false |})
       "Price"
     = "Price".
Proof.
  split; [reflexivity|].
  refine (proj2 (never_registered_passes_through (python := latin1)
                   (Some [("qty", "quantity")]) false
                   [AddAlias "amt" "amount" false; RemoveAlias "qty"]
                   _ "Price" eq_refl _)).
  intros a c [H | [H | []]]; inversion H; discriminate.
Defined.

Local Notation "'table' cols" :=
  ({| columns := cols; cells := [[1; 2]]%Z; attrs := [] |})
  (at level 10, cols at level 9).


(** The aliases of [quantity] in a manager with two of them. *)
Lemma aliases_for_inverts_canonical_witness :
  constructible (python := latin1)
    {| _aliases := [("qty", "quantity"); ("amt", "amount");
                    ("strasse", "quantity")];
       _frozen := false |}
  /\ aliases_for
       {| _aliases := [("qty", "quantity"); ("amt", "amount");
                       ("strasse", "quantity")];
          _frozen := false |} "quantity"
     = ["qty"; "strasse"]
  /\ In (casefold (Runtime := latin1) "Straße")
       (aliases_for
          {| _aliases := [("qty", "quantity"); ("amt", "amount");
                          ("strasse", "quantity")];
             _frozen := false |} "quantity").
Proof.
  assert (Hc : constructible (python := latin1)
                 {| _aliases := [("qty", "quantity"); ("amt", "amount");
                                 ("strasse", "quantity")];
                    _frozen := false |}).
  { exact (called (python := latin1) (AddAlias "Straße" "quantity" false) _
             qty_amt_constructible). }
  split; [exact Hc|]. split; [reflexivity|].
  apply (proj1 (proj2 (aliases_for_inverts_canonical (python := latin1)
                         casefold_latin1_idem _ Hc)) "Straße").
  reflexivity.
Defined.

(** A table with a label that is no string. *)
Lemma to_canonical_errors_witness :
  to_canonical (python := latin1) qty_amt (table [Str "qty"; Int 7])
    false true true
  = Raise AttributeError
  /\ exists target df',
       to_canonical (python := latin1) qty_amt
         (table [Str "qty"; Str "quantity"]) false true true
       = Ok (target, df').
Proof.
  split.
  - apply (proj1 (to_canonical_errors (python := latin1) qty_amt
                    (table [Str "qty"; Int 7]) false true true)).
    exists (Int 7). split; [right; left; reflexivity | discriminate].
  - apply (proj2 (proj2 (to_canonical_errors (python := latin1) qty_amt
                           (table [Str "qty"; Str "quantity"])
                           false true true))); [|reflexivity].
    intros l [<- | [<- | []]]; eauto.
Defined.

(** The columns [qty], [Quantity], [amt]: only [qty] is reported. *)
Lemma to_canonical_reports_witness :
  to_canonical (python := latin1) qty_amt
    (table [Str "qty"; Str "Quantity"; Str "amt"]) false false true
  = Raise (CollisionError ["qty"])
  /\ (In "qty" ["qty"]
      <-> In (Str "qty") [Str "qty"; Str "Quantity"; Str "amt"]
          /\ __contains__ (python := latin1) qty_amt "qty" = true
          /\ "qty" <> canonical (python := latin1) qty_amt "qty"
          /\ exists other,
               In (Str other) [Str "qty"; Str "Quantity"; Str "amt"]
               /\ casefold (Runtime := latin1) other
                  = casefold (Runtime := latin1)
                      (canonical (python := latin1) qty_amt "qty")).
Proof.
  split; [reflexivity|].
  exact (proj2 (proj2 (to_canonical_reports (python := latin1) qty_amt
                         (table [Str "qty"; Str "Quantity"; Str "amt"])
                         false true ["qty"] eq_refl)) "qty").
Defined.

(** The same table with [drop_conflicts]: [qty] stays, [amt] is
    renamed. *)
Lemma to_canonical_columns_witness :
  exists target df',
    to_canonical (python := latin1) qty_amt
      (table [Str "qty"; Str "Quantity"; Str "amt"]) false true true
    = Ok (target, df')
    /\ columns target = [Str "qty"; Str "Quantity"; Str "amount"]
    /\ exists built,
         build_rename_map (python := latin1) qty_amt
           [Str "qty"; Str "Quantity"; Str "amt"] [] = Ok built
         /\ columns target
            = map (fun l =>
                     match l with
                     | Str s =>
                         if existsb (String.eqb s)
                              (collisions_of (python := latin1)
                                 [Str "qty"; Str "Quantity"; Str "amt"]
                                 built)
                         then l
                         else Str (canonical (python := latin1) qty_amt s)
                     | _ => l
                     end) [Str "qty"; Str "Quantity"; Str "amt"].
Proof.
  eexists. eexists. split; [reflexivity|]. split; [reflexivity|].
  exact (proj2 (to_canonical_columns (python := latin1) qty_amt
                  (table [Str "qty"; Str "Quantity"; Str "amt"])
                  false true true _ _ eq_refl)).
Defined.

(** The record of a renaming. *)
Lemma to_canonical_remembers_witness :
  exists target record,
    to_canonical (python := latin1) qty_amt
      (table [Str "QTY"; Str "price"]) false false true
    = Ok (target, table [Str "QTY"; Str "price"])
    /\ record = [("QTY", "quantity")]
    /\ Dict.get "alias_map" (attrs target) = Some (RenameRecord record)
    /\ columns target
       = map (rename_label record) [Str "QTY"; Str "price"].
Proof.
  destruct (to_canonical_remembers (python := latin1) qty_amt
              (table [Str "QTY"; Str "price"]) false false _ _ eq_refl)
    as [record [Hrec [Hcols _]]].
  eexists. exists record. split; [reflexivity|].
  split; [|split; [exact Hrec | exact Hcols]].
  simpl in Hrec. inversion Hrec. reflexivity.
Defined.

(** Renaming and restoring a table with the columns [QTY], [price],
    [Amt]. *)
Lemma restore_undoes_to_canonical_witness :
  exists target restored,
    to_canonical (python := latin1) qty_amt
      (table [Str "QTY"; Str "price"; Str "Amt"]) false false true
    = Ok (target, table [Str "QTY"; Str "price"; Str "Amt"])
    /\ columns target = [Str "quantity"; Str "price"; Str "amount"]
    /\ NoDup (map snd [("QTY", "quantity"); ("Amt", "amount")])
    /\ restore_aliases qty_amt target false true = Ok (restored, target)
    /\ columns restored = [Str "QTY"; Str "price"; Str "Amt"].
Proof.
  assert (Hnd : NoDup (map snd [("QTY", "quantity"); ("Amt", "amount")])).
  { repeat constructor; simpl; intuition discriminate. }
  destruct (restore_undoes_to_canonical (python := latin1) qty_amt
              (table [Str "QTY"; Str "price"; Str "Amt"])
              false false false true _ _
              [("QTY", "quantity"); ("Amt", "amount")]
              eq_refl eq_refl Hnd)
    as [restored [Hr [Hcols _]]].
  eexists. exists restored. split; [reflexivity|].
  split; [reflexivity|]. split; [exact Hnd|].
  split; [exact Hr | exact Hcols].
Defined.


(** Registering [quantity] for [QTY] where [qty] has it already. *)
Lemma add_alias_again_witness :
  fst (add_alias (python := latin1) "qty" "quantity" false no_aliases)
  = Ok tt
  /\ add_alias (python := latin1) "QTY" "quantity" false
       {| _aliases := [("qty", "quantity")]; _frozen := false |}
     = (Ok tt, {| _aliases := [("qty", "quantity")]; _frozen := false |}).
Proof.
  split; [reflexivity|].
  apply (add_alias_again (python := latin1) "qty" "quantity" false
           no_aliases "QTY" false); reflexivity.
Defined.

(** A second [to_canonical] on a renamed table replaces its record by
    the empty one. *)
Lemma to_canonical_nothing_registered_witness :
  exists target,
    to_canonical (python := latin1) qty_amt
      {| columns := [Str "quantity"; Str "amount"]; cells := [[1; 2]]%Z;
         attrs := [("alias_map",
                    RenameRecord [("qty", "quantity");
                                  ("amt", "amount")])] |}
      false false true
    = Ok (target,
          {| columns := [Str "quantity"; Str "amount"];
             cells := [[1; 2]]%Z;
             attrs := [("alias_map",
                        RenameRecord [("qty", "quantity");
                                      ("amt", "amount")])] |})
    /\ columns target = [Str "quantity"; Str "amount"]
    /\ cells target = [[1; 2]]%Z
    /\ attrs target = [("alias_map", RenameRecord [])].
Proof.
  apply (to_canonical_nothing_registered (python := latin1) qty_amt
           {| columns := [Str "quantity"; Str "amount"];
              cells := [[1; 2]]%Z;
              attrs := [("alias_map",
                         RenameRecord [("qty", "quantity");
                                       ("amt", "amount")])] |}
           false false true).
  intros l [<- | [<- | []]]; eexists; split; reflexivity.
Defined.

(** Two columns renamed to one canonical name are not told apart when
    restoring: both come back with the label of the second. *)
Example restore_after_merging_columns :
  to_canonical (python := latin1) qty_amt (table [Str "qty"; Str "QTY"])
    false false true
  = Ok ({| columns := [Str "quantity"; Str "quantity"];
           cells := [[1; 2]]%Z;
           attrs := [("alias_map",
                      RenameRecord [("qty", "quantity");
                                    ("QTY", "quantity")])] |},
        table [Str "qty"; Str "QTY"])
  /\ restore_aliases qty_amt
       {| columns := [Str "quantity"; Str "quantity"];
          cells := [[1; 2]]%Z;
          attrs := [("alias_map",
                     RenameRecord [("qty", "quantity");
                                   ("QTY", "quantity")])] |}
       true true
     = Ok ({| columns := [Str "QTY"; Str "QTY"];
              cells := [[1; 2]]%Z;
              attrs := [("alias_map",
                         RenameRecord [("qty", "quantity");
                                       ("QTY", "quantity")])] |},
           {| columns := [Str "QTY"; Str "QTY"];
              cells := [[1; 2]]%Z;
              attrs := [("alias_map",
                         RenameRecord [("qty", "quantity");
                                       ("QTY", "quantity")])] |}).
Proof. split; reflexivity. Qed.

(** Assigning an item twice. *)
Lemma item_assignment_witness :
  fst (__setitem__ (python := latin1) "Qty" "quantity" no_aliases) = Ok tt
  /\ __getitem__ (python := latin1)
       (snd (__setitem__ (python := latin1) "Qty" "quantity" no_aliases))
       "QTY"
     = "quantity"
  /\ __setitem__ (python := latin1) "QTY" "count" qty_amt
     = (Raise (ConflictError "QTY" "quantity"), qty_amt).
Proof.
  split; [reflexivity|].
  split.
  - apply (proj1 (item_assignment (python := latin1) "Qty" "quantity"
                    no_aliases) eq_refl "QTY").
    reflexivity.
  - apply (proj2 (item_assignment (python := latin1) "QTY" "count"
                    qty_amt) "quantity"); try reflexivity.
    discriminate.
Defined.

(** Clearing the manager of [qty] and [amt]. *)
Lemma clear_forgets_all_witness :
  _frozen qty_amt = false
  /\ canonical (python := latin1) (snd (clear qty_amt)) "qty" = "qty".
Proof.
  split; [reflexivity|].
  destruct (clear_forgets_all (python := latin1) qty_amt eq_refl)
    as [_ [_ H]].
  apply (H "qty").
Defined.
